(** * larnd-sim: the recombination kernel [quench] of [larndsim/quenching.py]

    A shallow embedding of the CUDA kernel [quench] and the properties of it
    that the specification states.

    Modelling choices.
    - The record array [tracks] is a [list Segment.t]; the kernel mutates it
      in place, so the kernel is a computation in a state-and-exception
      monad [M]: an exception leaves the stores made before it visible.
    - One call of [quench] is one CUDA thread; [itrk = cuda.grid(1)] is the
      argument [itrk].  [launch] runs the threads of a one-dimensional grid
      one after the other.
    - Floating-point values are [fl]: a real number, one of the two
      infinities, or not-a-number.  Arithmetic is exact on finite values
      (no rounding, overflow or underflow) and follows IEEE 754 on the
      special values, as the numpy scalars of the record array do: a
      division by zero yields an infinity or NaN instead of an exception.
      The sign of a zero is not represented: a zero divisor counts as +0.
    - The modules [physics], [detector] and [light] of [larndsim/consts]
      are not part of the file; their constants are parameters of the
      development (records).
    - The kernel reads two global names that [quenching.py] neither
      defines nor imports: [TPC_BORDERS] (lines 40 and 49) and [exp]
      (line 52; the file imports [log] and [isnan] only).  The state of
      the module's namespace is a parameter: each of the two names is bound
      to a value or unbound ([None]), and reading an unbound name raises
      [NameError].  In the module as it is, both are unbound. *)

From Stdlib Require Import Reals Lra ZArith Bool.
From stdpp Require Import base option list.

Local Open Scope Z_scope.

(** ** Floating-point values *)

Inductive fl : Type :=
  | Fin (r : R)
  | PInf
  | NInf
  | NaN.

Declare Scope fl_scope.
Delimit Scope fl_scope with fl.
Bind Scope fl_scope with fl.

Definition Rcmp (a b : R) : comparison :=
  match total_order_T a b with
  | inleft (left _) => Lt
  | inleft (right _) => Eq
  | inright _ => Gt
  end.

Definition Rleb (a b : R) : bool := if Rle_dec a b then true else false.
Definition Rltb (a b : R) : bool := if Rlt_dec a b then true else false.

Definition fopp (a : fl) : fl :=
  match a with
  | Fin r => Fin (- r)
  | PInf => NInf
  | NInf => PInf
  | NaN => NaN
  end.

Definition fadd (a b : fl) : fl :=
  match a, b with
  | NaN, _ | _, NaN => NaN
  | Fin r, Fin s => Fin (r + s)
  | PInf, NInf | NInf, PInf => NaN
  | PInf, _ | _, PInf => PInf
  | NInf, _ | _, NInf => NInf
  end.

Definition fsub (a b : fl) : fl := fadd a (fopp b).

(** [inf * r] for a finite [r]: NaN at zero, else the sign rule. *)
Definition scale_inf (inf : fl) (r : R) : fl :=
  match Rcmp r 0 with
  | Eq => NaN
  | Gt => inf
  | Lt => fopp inf
  end.

Definition fmul (a b : fl) : fl :=
  match a, b with
  | NaN, _ | _, NaN => NaN
  | Fin r, Fin s => Fin (r * s)
  | Fin r, (PInf | NInf) => scale_inf b r
  | (PInf | NInf), Fin s => scale_inf a s
  | PInf, PInf | NInf, NInf => PInf
  | PInf, NInf | NInf, PInf => NInf
  end.

Definition fdiv (a b : fl) : fl :=
  match a, b with
  | NaN, _ | _, NaN => NaN
  | Fin r, Fin s =>
      match Rcmp s 0 with
      | Eq => match Rcmp r 0 with
              | Eq => NaN
              | Gt => PInf
              | Lt => NInf
              end
      | _ => Fin (r / s)
      end
  | Fin _, (PInf | NInf) => Fin 0
  | (PInf | NInf), Fin s =>
      match Rcmp s 0 with
      | Lt => fopp a
      | _ => a
      end
  | (PInf | NInf), (PInf | NInf) => NaN
  end.

Definition fabs (a : fl) : fl :=
  match a with
  | Fin r => Fin (Rabs r)
  | PInf | NInf => PInf
  | NaN => NaN
  end.

(** [math.log]: minus infinity at zero, NaN below. *)
Definition flog (a : fl) : fl :=
  match a with
  | Fin r =>
      match Rcmp r 0 with
      | Gt => Fin (ln r)
      | Eq => NInf
      | Lt => NaN
      end
  | PInf => PInf
  | NInf | NaN => NaN
  end.

(** Comparisons: every comparison with NaN is false. *)
Definition fle (a b : fl) : bool :=
  match a, b with
  | NaN, _ | _, NaN => false
  | Fin r, Fin s => Rleb r s
  | NInf, _ | _, PInf => true
  | _, _ => false
  end.

Definition flt (a b : fl) : bool :=
  match a, b with
  | NaN, _ | _, NaN => false
  | Fin r, Fin s => Rltb r s
  | PInf, _ | _, NInf => false
  | _, _ => true
  end.

Definition isnan (a : fl) : bool :=
  match a with
  | NaN => true
  | _ => false
  end.

(** Python's [max(a, b)] and [min(a, b)]: the first argument is kept unless
    the second one is strictly greater (smaller); with a NaN the comparison
    is false and the first argument stays. *)
Definition fmax (a b : fl) : fl := if flt a b then b else a.
Definition fmin (a b : fl) : fl := if flt b a then b else a.

Infix "+" := fadd : fl_scope.
Infix "-" := fsub : fl_scope.
Infix "*" := fmul : fl_scope.
Infix "/" := fdiv : fl_scope.
Infix "<=?" := fle : fl_scope.
Infix "<?" := flt : fl_scope.

(** The float of an integer literal, and the literal [2e-2]. *)
Definition of_int (n : Z) : fl := Fin (IZR n).
Definition tol : fl := Fin (2 / 100).

(** ** Data model *)

(** One row of the structured array [tracks], with the fields the kernel
    reads or writes. *)
Module Segment.
Record t : Type := mk {
  dEdx : fl;
  dE : fl;
  x : fl;
  y : fl;
  z : fl;
  pixel_plane : Z;
  n_electrons : fl;
  n_photons : fl
}.

Definition set_pixel_plane (v : Z) (s : t) : t :=
  mk (dEdx s) (dE s) (x s) (y s) (z s) v (n_electrons s) (n_photons s).
Definition set_n_electrons (v : fl) (s : t) : t :=
  mk (dEdx s) (dE s) (x s) (y s) (z s) (pixel_plane s) v (n_photons s).
Definition set_n_photons (v : fl) (s : t) : t :=
  mk (dEdx s) (dE s) (x s) (y s) (z s) (pixel_plane s) (n_electrons s) v.
End Segment.

(** One entry of [TPC_BORDERS]: [plane[a][k]] for axis [a] and bound [k]. *)
Record plane : Type := mk_plane {
  axis0 : fl * fl;
  axis1 : fl * fl;
  axis2 : fl * fl
}.

(** The constants of [larndsim/consts/physics.py] the kernel uses. *)
Record physics_consts : Type := mk_physics {
  BOX : Z;
  BIRKS : Z;
  DATA : Z;
  BOX_ALPHA : fl;
  BOX_BETA : fl;
  BIRKS_Ab : fl;
  BIRKS_kb : fl;
  W_ION : fl
}.

(** The constants of [larndsim/consts/detector.py] the kernel uses. *)
Record detector_consts : Type := mk_detector {
  DEFAULT_PLANE_INDEX : Z;
  E_FIELD : fl;
  LAR_DENSITY : fl;
  V_DRIFT : fl;
  ELECTRON_LIFETIME : fl
}.

(** The constants of [larndsim/consts/light.py] the kernel uses. *)
Record light_consts : Type := mk_light {
  W_PH : fl;
  SCINT_PRESCALE : fl
}.

(** ** The kernel monad: the array as state, Python exceptions *)

Inductive exn : Type :=
  | ValueError      (* "Invalid recombination mode ..." *)
  | RuntimeError    (* "Invalid recombination value" *)
  | NameError       (* a global name that is not bound *)
  | IndexError.

Inductive outcome (A : Type) : Type :=
  | Ret (a : A) (tracks : list Segment.t)
  | Raise (e : exn) (tracks : list Segment.t).
Arguments Ret {A} a tracks.
Arguments Raise {A} e tracks.

Definition M (A : Type) : Type := list Segment.t → outcome A.

Definition ret {A} (a : A) : M A := λ tracks, Ret a tracks.
Definition raise {A} (e : exn) : M A := λ tracks, Raise e tracks.
Definition bind {A B} (m : M A) (k : A → M B) : M B :=
  λ tracks,
    match m tracks with
    | Ret a tracks' => k a tracks'
    | Raise e tracks' => Raise e tracks'
    end.

#[export] Instance M_ret : MRet M := @ret.
#[export] Instance M_bind : MBind M := λ A B k m, bind m k.

(** The array after a computation, however it ended. *)
Definition final {A} (o : outcome A) : list Segment.t :=
  match o with
  | Ret _ tracks => tracks
  | Raise _ tracks => tracks
  end.

(** [tracks.shape[0]] *)
Definition shape0 : M nat := λ tracks, Ret (length tracks) tracks.

(** [tracks[i][field]] *)
Definition load {A} (i : nat) (field : Segment.t → A) : M A :=
  λ tracks,
    match tracks !! i with
    | Some s => Ret (field s) tracks
    | None => Raise IndexError tracks
    end.

(** [tracks[i][field] = v] *)
Definition store (i : nat) (set : Segment.t → Segment.t) : M unit :=
  λ tracks,
    match tracks !! i with
    | Some s => Ret tt (<[i := set s]> tracks)
    | None => Raise IndexError tracks
    end.

(** [table[i]] for a Python integer [i]: a negative index counts from the
    end. *)
Definition getitem {A} (table : list A) (i : Z) : option A :=
  if (0 <=? i)%Z then table !! Z.to_nat i
  else if (- Z.of_nat (length table) <=? i)%Z
       then table !! Z.to_nat (Z.of_nat (length table) + i)
       else None.

(** ** Plane selection *)

(** The condition of the [if] in the plane loop (lines 41-43). *)
Definition in_padded_box (p : plane) (tx ty tz : fl) : bool :=
  ((((fst (axis0 p) - tol) <=? tx) && (tx <=? (snd (axis0 p) + tol))) &&
   (((fst (axis1 p) - tol) <=? ty) && (ty <=? (snd (axis1 p) + tol))) &&
   ((fmin (snd (axis2 p) - tol) (fst (axis2 p) - tol) <=? tz) &&
    (tz <=? fmax (snd (axis2 p) + tol) (fst (axis2 p) + tol))))%fl.

(** The padded box of plane [p] holds the position of [seg]. *)
Definition holds (p : plane) (seg : Segment.t) : bool :=
  in_padded_box p (Segment.x seg) (Segment.y seg) (Segment.z seg).

(** The plane loop read as a pure search: the index of the first plane,
    counted from [ip], whose padded box holds the segment. *)
Fixpoint first_match (planes : list plane) (ip : nat) (seg : Segment.t)
    : option nat :=
  match planes with
  | [] => None
  | p :: rest =>
      if holds p seg then Some ip
      else first_match rest (S ip) seg
  end.

(** ** The kernel *)

Section Kernel.
Variable physics : physics_consts.
Variable detector : detector_consts.
Variable light : light_consts.

(** The two global names the module does not bind itself: the value each
    is bound to, or [None]. *)
Variable TPC_BORDERS : option (list plane).
Variable exp : option (fl → fl).

(** [for ip, plane in enumerate(...): if ...: pixel_plane = ip; break]
    (lines 40-45) over the value [planes] of [TPC_BORDERS], from index
    [ip] on; [track] is the view [tracks[itrk]]. *)
Fixpoint scan_planes (planes : list plane) (ip : nat) (track : nat)
    (pixel_plane : Z) : M Z :=
  match planes with
  | [] => ret pixel_plane
  | p :: rest =>
      tx ← load track Segment.x;
      ty ← load track Segment.y;
      tz ← load track Segment.z;
      if in_padded_box p tx ty tz then ret (Z.of_nat ip)
      else scan_planes rest (S ip) track pixel_plane
  end.

(** The value of [csi] in the Box branch (line 34). *)
Definition csi_of (dEdx : fl) : fl :=
  (BOX_BETA physics * dEdx / (E_FIELD detector * LAR_DENSITY detector))%fl.

(** The index the plane loop leaves in [pixel_plane], over the table
    [planes]. *)
Definition selected (planes : list plane) (seg : Segment.t) : Z :=
  from_option Z.of_nat (DEFAULT_PLANE_INDEX detector)
    (first_match planes 0 seg).

(** The segment after lines 60-61. *)
Definition with_outputs (recomb dE : fl) (seg : Segment.t) : Segment.t :=
  let ne := (recomb * dE / W_ION physics)%fl in
  Segment.set_n_photons ((dE / W_PH light - ne) * SCINT_PRESCALE light)%fl
    (Segment.set_n_electrons ne seg).

(** Lines 31-55: the selected model branch computes [recomb]. *)
Definition recombination (mode : Z) (track : nat) (dEdx : fl) : M fl :=
  let pixel_plane := DEFAULT_PLANE_INDEX detector in
  let recomb := of_int 0 in
  if (mode =? BOX physics)%Z then
    let csi := (BOX_BETA physics * dEdx
                / (E_FIELD detector * LAR_DENSITY detector))%fl in
    ret (fmax (of_int 0) (flog (BOX_ALPHA physics + csi) / csi))%fl
  else if (mode =? BIRKS physics)%Z then
    ret (BIRKS_Ab physics
         / (of_int 1 + BIRKS_kb physics * dEdx
                       / (E_FIELD detector * LAR_DENSITY detector)))%fl
  else if (mode =? DATA physics)%Z then
    match TPC_BORDERS with
    | None => raise NameError                              (* line 40 *)
    | Some planes =>
        pixel_plane ← scan_planes planes 0 track pixel_plane;
        store track (Segment.set_pixel_plane pixel_plane);;
        if negb (pixel_plane =? DEFAULT_PLANE_INDEX detector)%Z then
          match getitem planes pixel_plane with
          | None => raise IndexError
          | Some p =>
              let z_anode := fst (axis2 p) in
              tz ← load track Segment.z;
              let drift_distance := fabs (tz - z_anode) in
              let drift_time := (drift_distance / V_DRIFT detector)%fl in
              match exp with
              | None => raise NameError                    (* line 52 *)
              | Some exp =>
                  let lifetime_red :=
                    exp (drift_time / ELECTRON_LIFETIME detector)%fl in
                  ret lifetime_red
              end
          end
        else ret recomb
    end
  else raise ValueError.

(** One thread of the kernel. *)
Definition quench (mode : Z) (itrk : nat) : M unit :=
  n ← shape0;
  if (itrk <? n)%nat then
    dEdx ← load itrk Segment.dEdx;
    dE ← load itrk Segment.dE;
    let track := itrk in
    recomb ← recombination mode track dEdx;
    if isnan recomb then raise RuntimeError
    else
      store itrk (Segment.set_n_electrons (recomb * dE / W_ION physics));;
      ne ← load itrk Segment.n_electrons;
      store itrk
        (Segment.set_n_photons
           ((dE / W_PH light - ne) * SCINT_PRESCALE light))
  else ret tt.

(** A grid of [threads] threads, run one after the other; the first
    exception ends the launch.  On the device the other threads still run:
    launches are used below only where that makes no difference, when
    every thread raises before any store or when the launch completes. *)
Fixpoint launch_from (mode : Z) (itrk threads : nat) : M unit :=
  match threads with
  | O => ret tt
  | S k => quench mode itrk;; launch_from mode (S itrk) k
  end.

Definition launch (mode : Z) (threads : nat) : M unit :=
  launch_from mode 0 threads.
End Kernel.

(** ** One thread seen from its segment

    What a thread does to the segment it addresses, as a function of the
    mode and of that segment alone: the segment it leaves and the exception
    it raises, if any.  [quench_thread_outcome] below relates it to
    [quench]. *)
Section ThreadView.
Variable physics : physics_consts.
Variable detector : detector_consts.
Variable light : light_consts.
Variable TPC_BORDERS : option (list plane).
Variable exp : option (fl → fl).

Definition finish (recomb : fl) (dE : fl) (seg1 : Segment.t)
    : Segment.t * option exn :=
  if isnan recomb then (seg1, Some RuntimeError)
  else (with_outputs physics light recomb dE seg1, None).

Definition thread_outcome (mode : Z) (seg : Segment.t)
    : Segment.t * option exn :=
  let dEdx := Segment.dEdx seg in
  let dE := Segment.dE seg in
  if (mode =? BOX physics)%Z then
    finish
      (fmax (of_int 0)
         (flog (BOX_ALPHA physics + csi_of physics detector dEdx)
          / csi_of physics detector dEdx))%fl dE seg
  else if (mode =? BIRKS physics)%Z then
    finish
      (BIRKS_Ab physics
       / (of_int 1 + BIRKS_kb physics * dEdx
                     / (E_FIELD detector * LAR_DENSITY detector)))%fl dE seg
  else if (mode =? DATA physics)%Z then
    match TPC_BORDERS with
    | None => (seg, Some NameError)
    | Some planes =>
        let pixel_plane := selected detector planes seg in
        let seg1 := Segment.set_pixel_plane pixel_plane seg in
        if (pixel_plane =? DEFAULT_PLANE_INDEX detector)%Z then
          finish (of_int 0) dE seg1
        else
          match getitem planes pixel_plane, exp with
          | None, _ => (seg1, Some IndexError)
          | Some p, None => (seg1, Some NameError)
          | Some p, Some exp =>
              finish
                (exp (fabs (Segment.z seg - fst (axis2 p)) / V_DRIFT detector
                      / ELECTRON_LIFETIME detector)%fl) dE seg1
          end
    end
  else (seg, Some ValueError).

(** The outcome of a thread on [tracks[i]], put back into the array. *)
Definition place (i : nat) (tracks : list Segment.t)
    (o : Segment.t * option exn) : outcome unit :=
  match snd o with
  | None => Ret tt (<[i := fst o]> tracks)
  | Some e => Raise e (<[i := fst o]> tracks)
  end.

(** Two segments with the same input fields. *)
Definition same_inputs (s1 s2 : Segment.t) : Prop :=
  Segment.dEdx s1 = Segment.dEdx s2 ∧ Segment.dE s1 = Segment.dE s2 ∧
  Segment.x s1 = Segment.x s2 ∧ Segment.y s1 = Segment.y s2 ∧
  Segment.z s1 = Segment.z s2.
End ThreadView.

(** Finite values, and finite values above zero. *)
Definition finite (a : fl) : Prop := ∃ r, a = Fin r.
Definition positive (a : fl) : Prop := ∃ r, a = Fin r ∧ (0 < r)%R.

(** ** A sample configuration

    The nominal constants of the simulation; the examples below are
    evaluated on them, with the two global names unbound, as the module
    leaves them. *)
Module Sample.
Definition physics : physics_consts :=
  {| BOX := 1; BIRKS := 2; DATA := 3;
     BOX_ALPHA := Fin (93 / 100); BOX_BETA := Fin (207 / 1000);
     BIRKS_Ab := Fin (8 / 10); BIRKS_kb := Fin (486 / 10000);
     W_ION := Fin (236 / 10000000) |}.

Definition detector : detector_consts :=
  {| DEFAULT_PLANE_INDEX := 195935983;
     E_FIELD := Fin (5 / 10); LAR_DENSITY := Fin (14 / 10);
     V_DRIFT := Fin (1648 / 10000); ELECTRON_LIFETIME := Fin 2200 |}.

Definition light : light_consts :=
  {| W_PH := Fin (195 / 10000000); SCINT_PRESCALE := Fin 1 |}.

Definition box (x0 x1 y0 y1 z0 z1 : R) : plane :=
  {| axis0 := (Fin x0, Fin x1);
     axis1 := (Fin y0, Fin y1);
     axis2 := (Fin z0, Fin z1) |}.

Definition segment (dEdx dE x y z : R) : Segment.t :=
  {| Segment.dEdx := Fin dEdx; Segment.dE := Fin dE;
     Segment.x := Fin x; Segment.y := Fin y; Segment.z := Fin z;
     Segment.pixel_plane := 7;
     Segment.n_electrons := Fin 0; Segment.n_photons := Fin 0 |}.

(** Two segments, one far out in [x]. *)
Definition inner : Segment.t := segment 2 10 5 0 10.
Definition outer : Segment.t := segment 2 10 100 0 10.

(** A segment without energy loss per length, and one whose [dEdx] is not
    a number. *)
Definition still : Segment.t := segment 0 10 5 0 10.
Definition broken : Segment.t :=
  {| Segment.dEdx := NaN; Segment.dE := Fin 10;
     Segment.x := Fin 5; Segment.y := Fin 0; Segment.z := Fin 10;
     Segment.pixel_plane := 7;
     Segment.n_electrons := Fin 0; Segment.n_photons := Fin 0 |}.
End Sample.

(** A segment whose [dE] is not a number. *)
Module Variant.
Definition unmeasured : Segment.t :=
  {| Segment.dEdx := Fin 2; Segment.dE := NaN;
     Segment.x := Fin 5; Segment.y := Fin 0; Segment.z := Fin 10;
     Segment.pixel_plane := 7;
     Segment.n_electrons := Fin 0; Segment.n_photons := Fin 0 |}.
End Variant.

(** ** Deciding comparisons of reals *)

Lemma Rcmp_Lt a b : (a < b)%R → Rcmp a b = Lt.
Proof.
  intros H. unfold Rcmp.
  destruct (total_order_T a b) as [[Hlt | Heq] | Hgt]; [reflexivity | lra | lra].
Qed.

Lemma Rcmp_Eq a b : a = b → Rcmp a b = Eq.
Proof.
  intros H. unfold Rcmp.
  destruct (total_order_T a b) as [[Hlt | Heq] | Hgt]; [lra | reflexivity | lra].
Qed.

Lemma Rcmp_Gt a b : (b < a)%R → Rcmp a b = Gt.
Proof.
  intros H. unfold Rcmp.
  destruct (total_order_T a b) as [[Hlt | Heq] | Hgt]; [lra | lra | reflexivity].
Qed.

Lemma Rleb_true a b : (a <= b)%R → Rleb a b = true.
Proof. intros H. unfold Rleb. destruct (Rle_dec a b); [reflexivity | lra]. Qed.

Lemma Rleb_false a b : (b < a)%R → Rleb a b = false.
Proof. intros H. unfold Rleb. destruct (Rle_dec a b); [lra | reflexivity]. Qed.

Lemma Rltb_true a b : (a < b)%R → Rltb a b = true.
Proof. intros H. unfold Rltb. destruct (Rlt_dec a b); [reflexivity | lra]. Qed.

Lemma Rltb_false a b : (b <= a)%R → Rltb a b = false.
Proof. intros H. unfold Rltb. destruct (Rlt_dec a b); [lra | reflexivity]. Qed.

Lemma Rleb_le a b : Rleb a b = true → (a <= b)%R.
Proof. unfold Rleb. destruct (Rle_dec a b); [trivial | discriminate]. Qed.

Lemma Rltb_lt a b : Rltb a b = true → (a < b)%R.
Proof. unfold Rltb. destruct (Rlt_dec a b); [trivial | discriminate]. Qed.

(** Settle every comparison of the goal that linear arithmetic decides. *)
Ltac Rdecide :=
  repeat match goal with
  | |- context [Rcmp ?a ?b] =>
      first [ rewrite (Rcmp_Lt a b) by lra
            | rewrite (Rcmp_Eq a b) by lra
            | rewrite (Rcmp_Gt a b) by lra ]
  | |- context [Rleb ?a ?b] =>
      first [ rewrite (Rleb_true a b) by lra
            | rewrite (Rleb_false a b) by lra ]
  | |- context [Rltb ?a ?b] =>
      first [ rewrite (Rltb_true a b) by lra
            | rewrite (Rltb_false a b) by lra ]
  end.

(** Evaluate float operations on finite operands. *)
Ltac fl_simpl :=
  unfold fmin, fmax;
  cbn [fadd fsub fmul fdiv fopp fabs flog fle flt fmax fmin isnan
       of_int tol scale_inf fst snd andb negb].

Ltac fl_eval := repeat (fl_simpl; Rdecide); fl_simpl.

(** ** Facts on the float operations *)

Lemma finite_Fin r : finite (Fin r).
Proof. exists r. reflexivity. Qed.

Lemma positive_Fin r : (0 < r)%R → positive (Fin r).
Proof. intros H. exists r. split; [reflexivity | exact H]. Qed.

Lemma fsub_zero a : (a - of_int 0)%fl = a.
Proof.
  destruct a; cbn; try reflexivity. f_equal. lra.
Qed.

Lemma fmax_zero_not_nan a : isnan (fmax (of_int 0) a) = false.
Proof.
  unfold fmax. destruct (of_int 0 <? a)%fl eqn:E; [| reflexivity].
  destruct a; [reflexivity | reflexivity | reflexivity | discriminate].
Qed.

Lemma fdiv_fin a b : b ≠ 0%R → (Fin a / Fin b)%fl = Fin (a / b).
Proof.
  intros Hb. cbn. unfold Rcmp.
  destruct (total_order_T b 0) as [[Hlt | Heq] | Hgt]; [reflexivity | lra | reflexivity].
Qed.

Lemma ln_nonpos s : (0 < s)%R → (s <= 1)%R → (ln s <= 0)%R.
Proof.
  intros H0 H1. destruct (Req_dec s 1) as [-> | Hne].
  - rewrite ln_1. lra.
  - rewrite <- ln_1. left. apply ln_increasing; lra.
Qed.

Lemma ln_neg s : (0 < s)%R → (s < 1)%R → (ln s < 0)%R.
Proof. intros H0 H1. rewrite <- ln_1. apply ln_increasing; lra. Qed.

Lemma ln_pos s : (1 < s)%R → (0 < ln s)%R.
Proof. intros H. rewrite <- ln_1. apply ln_increasing; lra. Qed.

(** ** The monad on the kernel's primitives *)

Lemma load_in {A} (i : nat) (field : Segment.t → A) tracks seg :
  tracks !! i = Some seg → load i field tracks = Ret (field seg) tracks.
Proof. intros H. unfold load. rewrite H. reflexivity. Qed.

Lemma store_in (i : nat) set tracks seg :
  tracks !! i = Some seg → store i set tracks = Ret tt (<[i := set seg]> tracks).
Proof. intros H. unfold store. rewrite H. reflexivity. Qed.

Lemma bind_ret {A B} (m : M A) (k : A → M B) tracks a tracks' :
  m tracks = Ret a tracks' → (m ≫= k) tracks = k a tracks'.
Proof. intros H. unfold mbind, M_bind, bind. rewrite H. reflexivity. Qed.

Lemma bind_raise {A B} (m : M A) (k : A → M B) tracks e tracks' :
  m tracks = Raise e tracks' → (m ≫= k) tracks = Raise e tracks'.
Proof. intros H. unfold mbind, M_bind, bind. rewrite H. reflexivity. Qed.

(** ** The plane loop *)

Lemma scan_planes_first_match planes ip track pp tracks seg :
  tracks !! track = Some seg →
  scan_planes planes ip track pp tracks
  = Ret (from_option Z.of_nat pp (first_match planes ip seg)) tracks.
Proof.
  intros Hseg. revert ip.
  induction planes as [| p rest IH]; intros ip; [reflexivity |].
  cbn [scan_planes first_match]. unfold holds.
  rewrite (bind_ret _ _ _ _ _ (load_in track Segment.x tracks seg Hseg)).
  rewrite (bind_ret _ _ _ _ _ (load_in track Segment.y tracks seg Hseg)).
  rewrite (bind_ret _ _ _ _ _ (load_in track Segment.z tracks seg Hseg)).
  destruct (in_padded_box p _ _ _); [reflexivity | apply IH].
Qed.

(** ** The kernel, branch by branch *)

Ltac open_recombination := unfold recombination.
Ltac open_quench := unfold quench.
Ltac open_selected := unfold selected.
Ltac open_launch := cbn [launch_from].

Section Properties.
Variable physics : physics_consts.
Variable detector : detector_consts.
Variable light : light_consts.
Variable TPC_BORDERS : option (list plane).
Variable exp : option (fl → fl).

Abbreviation recombination :=
  (recombination physics detector TPC_BORDERS exp).
Abbreviation quench := (quench physics detector light TPC_BORDERS exp).
Abbreviation launch := (launch physics detector light TPC_BORDERS exp).
Abbreviation launch_from :=
  (launch_from physics detector light TPC_BORDERS exp).

Abbreviation csi_of := (csi_of physics detector).
Abbreviation selected := (selected detector).
Abbreviation with_outputs := (with_outputs physics light).

Lemma recombination_BOX mode track dEdx tracks :
  mode = BOX physics →
  recombination mode track dEdx tracks
  = Ret (fmax (of_int 0)
           (flog (BOX_ALPHA physics + csi_of dEdx) / csi_of dEdx))%fl tracks.
Proof.
  intros ->. open_recombination. rewrite Z.eqb_refl. reflexivity.
Qed.

Lemma recombination_BIRKS mode track dEdx tracks :
  mode ≠ BOX physics → mode = BIRKS physics →
  recombination mode track dEdx tracks
  = Ret (BIRKS_Ab physics
         / (of_int 1 + BIRKS_kb physics * dEdx
                       / (E_FIELD detector * LAR_DENSITY detector)))%fl
      tracks.
Proof.
  intros Hbox ->. open_recombination.
  apply Z.eqb_neq in Hbox. rewrite Hbox, Z.eqb_refl. reflexivity.
Qed.

(** With [TPC_BORDERS] unbound the Data branch stops at line 40, before
    any load or store. *)
Lemma recombination_unbound mode track dEdx tracks :
  TPC_BORDERS = None →
  mode ≠ BOX physics → mode ≠ BIRKS physics → mode = DATA physics →
  recombination mode track dEdx tracks = Raise NameError tracks.
Proof.
  intros HT Hbox Hbirks ->. open_recombination.
  apply Z.eqb_neq in Hbox, Hbirks. rewrite Hbox, Hbirks, Z.eqb_refl, HT.
  reflexivity.
Qed.

(** With [TPC_BORDERS] bound to [planes]. *)
Lemma recombination_DATA mode track dEdx tracks seg planes :
  TPC_BORDERS = Some planes →
  mode ≠ BOX physics → mode ≠ BIRKS physics → mode = DATA physics →
  tracks !! track = Some seg →
  let tracks1 :=
    <[track := Segment.set_pixel_plane (selected planes seg) seg]> tracks in
  recombination mode track dEdx tracks
  = if (selected planes seg =? DEFAULT_PLANE_INDEX detector)%Z
    then Ret (of_int 0) tracks1
    else match getitem planes (selected planes seg), exp with
         | None, _ => Raise IndexError tracks1
         | Some p, None => Raise NameError tracks1
         | Some p, Some f =>
             Ret (f (fabs (Segment.z seg - fst (axis2 p))
                     / V_DRIFT detector
                     / ELECTRON_LIFETIME detector)%fl) tracks1
         end.
Proof.
  intros HT Hbox Hbirks -> Hseg tracks1. open_recombination.
  apply Z.eqb_neq in Hbox, Hbirks. rewrite Hbox, Hbirks, Z.eqb_refl, HT.
  rewrite (bind_ret _ _ _ _ _
             (scan_planes_first_match planes 0 track _ tracks seg Hseg)).
  fold (selected planes seg).
  rewrite (bind_ret _ _ _ _ _ (store_in track _ tracks seg Hseg)).
  fold tracks1.
  destruct (selected planes seg =? DEFAULT_PLANE_INDEX detector)%Z;
    cbn [negb].
  - reflexivity.
  - destruct (getitem planes (selected planes seg)) as [p |]; [| reflexivity].
    assert (Hz : tracks1 !! track
                 = Some (Segment.set_pixel_plane (selected planes seg) seg)).
    { apply list_lookup_insert_eq. eapply lookup_lt_Some, Hseg. }
    rewrite (bind_ret _ _ _ _ _ (load_in track Segment.z tracks1 _ Hz)).
    destruct exp; reflexivity.
Qed.

Lemma recombination_invalid mode track dEdx tracks :
  mode ≠ BOX physics → mode ≠ BIRKS physics → mode ≠ DATA physics →
  recombination mode track dEdx tracks = Raise ValueError tracks.
Proof.
  intros Hbox Hbirks Hdata. open_recombination.
  apply Z.eqb_neq in Hbox, Hbirks, Hdata. rewrite Hbox, Hbirks, Hdata.
  reflexivity.
Qed.

(** Whatever the branch, the array it leaves is the one it got, up to
    [pixel_plane] of the thread's own segment. *)
Lemma recombination_state mode track dEdx tracks seg :
  tracks !! track = Some seg →
  ∃ seg1,
    final (recombination mode track dEdx tracks) = <[track := seg1]> tracks ∧
    (seg1 = seg ∨ ∃ v, mode = DATA physics ∧ mode ≠ BOX physics ∧
                       mode ≠ BIRKS physics ∧
                       seg1 = Segment.set_pixel_plane v seg).
Proof.
  intros Hseg.
  destruct (Z.eq_dec mode (BOX physics)) as [Hbox | Hbox].
  { exists seg. rewrite (recombination_BOX _ _ _ _ Hbox). cbn.
    rewrite list_insert_id by exact Hseg. auto. }
  destruct (Z.eq_dec mode (BIRKS physics)) as [Hbirks | Hbirks].
  { exists seg. rewrite (recombination_BIRKS _ _ _ _ Hbox Hbirks). cbn.
    rewrite list_insert_id by exact Hseg. auto. }
  destruct (Z.eq_dec mode (DATA physics)) as [Hdata | Hdata].
  { assert (HT : (∃ planes, TPC_BORDERS = Some planes) ∨ TPC_BORDERS = None)
      by (destruct TPC_BORDERS; eauto).
    destruct HT as [(planes & HT) | HT].
    - exists (Segment.set_pixel_plane (selected planes seg) seg).
      rewrite (recombination_DATA _ _ _ _ _ _ HT Hbox Hbirks Hdata Hseg).
      split; [| right; eauto].
      destruct (selected planes seg =? _)%Z; [reflexivity |].
      destruct (getitem _ _); [destruct exp |]; reflexivity.
    - exists seg.
      rewrite (recombination_unbound _ _ _ _ HT Hbox Hbirks Hdata). cbn.
      rewrite list_insert_id by exact Hseg. auto. }
  exists seg. rewrite (recombination_invalid _ _ _ _ Hbox Hbirks Hdata). cbn.
  rewrite list_insert_id by exact Hseg. auto.
Qed.

(** Lines 57-61 on the array the branch left. *)
Lemma quench_unfold mode itrk tracks seg :
  tracks !! itrk = Some seg →
  quench mode itrk tracks
  = match recombination mode itrk (Segment.dEdx seg) tracks with
    | Raise e tracks1 => Raise e tracks1
    | Ret recomb tracks1 =>
        if isnan recomb then Raise RuntimeError tracks1
        else match tracks1 !! itrk with
             | Some seg1 =>
                 Ret tt (<[itrk := with_outputs recomb (Segment.dE seg) seg1]> tracks1)
             | None => Raise IndexError tracks1
             end
    end.
Proof.
  intros Hseg. open_quench.
  assert (Hlt : (itrk < length tracks)%nat) by (eapply lookup_lt_Some, Hseg).
  unfold mbind at 1, M_bind at 1, bind at 1, shape0.
  apply Nat.ltb_lt in Hlt. rewrite Hlt.
  rewrite (bind_ret _ _ _ _ _ (load_in itrk Segment.dEdx tracks seg Hseg)).
  rewrite (bind_ret _ _ _ _ _ (load_in itrk Segment.dE tracks seg Hseg)).
  unfold mbind at 1, M_bind at 1, bind at 1.
  destruct (recombination mode itrk (Segment.dEdx seg) tracks)
    as [recomb tracks1 | e tracks1]; [| reflexivity].
  destruct (isnan recomb); [reflexivity |].
  destruct (tracks1 !! itrk) as [seg1 |] eqn:H1.
  - rewrite (bind_ret _ _ _ _ _ (store_in itrk _ tracks1 seg1 H1)).
    assert (H2 : <[itrk := Segment.set_n_electrons
                   (recomb * Segment.dE seg / W_ION physics)%fl seg1]> tracks1
                 !! itrk
                 = Some (Segment.set_n_electrons
                   (recomb * Segment.dE seg / W_ION physics)%fl seg1)).
    { apply list_lookup_insert_eq. eapply lookup_lt_Some, H1. }
    rewrite (bind_ret _ _ _ _ _ (load_in itrk Segment.n_electrons _ _ H2)).
    rewrite (store_in itrk _ _ _ H2).
    rewrite list_insert_insert_eq. reflexivity.
  - unfold mbind, M_bind, bind, store. rewrite H1. reflexivity.
Qed.

Lemma quench_out_of_range mode itrk tracks :
  (length tracks ≤ itrk)%nat → quench mode itrk tracks = Ret tt tracks.
Proof.
  intros Hge. open_quench.
  unfold mbind, M_bind, bind, shape0.
  apply Nat.ltb_ge in Hge. rewrite Hge. reflexivity.
Qed.
Lemma quench_returns mode itrk tracks seg recomb tracks1 seg1 :
  tracks !! itrk = Some seg →
  recombination mode itrk (Segment.dEdx seg) tracks = Ret recomb tracks1 →
  isnan recomb = false →
  tracks1 !! itrk = Some seg1 →
  quench mode itrk tracks
  = Ret tt (<[itrk := with_outputs recomb (Segment.dE seg) seg1]> tracks1).
Proof.
  intros Hseg Hrec Hnan H1.
  rewrite (quench_unfold _ _ _ _ Hseg), Hrec, Hnan, H1. reflexivity.
Qed.

(** ** The final formulas *)

(** C1: when a thread completes on its segment, the model branch has
    produced a value [recomb], and the segment ends with
    [n_electrons = recomb * dE / W_ION] and
    [n_photons = (dE / W_PH - n_electrons) * SCINT_PRESCALE], whatever the
    mode: Box, Birks or Data, the Data branch without a plane included. *)
Theorem quench_final_formulas mode itrk tracks seg tracks' :
  tracks !! itrk = Some seg →
  quench mode itrk tracks = Ret tt tracks' →
  ∃ recomb tracks1 seg',
    recombination mode itrk (Segment.dEdx seg) tracks = Ret recomb tracks1 ∧
    tracks' !! itrk = Some seg' ∧
    Segment.n_electrons seg'
    = (recomb * Segment.dE seg / W_ION physics)%fl ∧
    Segment.n_photons seg'
    = ((Segment.dE seg / W_PH light - Segment.n_electrons seg')
       * SCINT_PRESCALE light)%fl.
Proof.
  intros Hseg Hq. rewrite (quench_unfold _ _ _ _ Hseg) in Hq.
  destruct (recombination mode itrk (Segment.dEdx seg) tracks)
    as [recomb tracks1 | e tracks1]; [| discriminate].
  destruct (isnan recomb); [discriminate |].
  destruct (tracks1 !! itrk) as [seg1 |] eqn:H1; [| discriminate].
  injection Hq as <-.
  exists recomb, tracks1, (with_outputs recomb (Segment.dE seg) seg1).
  split; [reflexivity |]. split; [| split; reflexivity].
  apply list_lookup_insert_eq. eapply lookup_lt_Some, H1.
Qed.

(** ** The Box branch *)

(** C2: under [mode = BOX], with
    [csi = BOX_BETA * dEdx / (E_FIELD * LAR_DENSITY)], the branch computes
    [recomb = max(0, ln(BOX_ALPHA + csi) / csi)]; for a (finite) [csi > 0]
    with [BOX_ALPHA + csi > 1] this [recomb] is strictly positive, and for
    [csi > 0] with [BOX_ALPHA + csi <= 1] it is 0. *)
Theorem box_recombination mode track dEdx tracks :
  mode = BOX physics →
  let csi :=
    (BOX_BETA physics * dEdx / (E_FIELD detector * LAR_DENSITY detector))%fl in
  let recomb :=
    fmax (of_int 0) (flog (BOX_ALPHA physics + csi) / csi)%fl in
  recombination mode track dEdx tracks = Ret recomb tracks ∧
  (finite csi → (of_int 0 <? csi)%fl = true →
   (of_int 1 <? BOX_ALPHA physics + csi)%fl = true →
   (of_int 0 <? recomb)%fl = true) ∧
  ((of_int 0 <? csi)%fl = true →
   (BOX_ALPHA physics + csi <=? of_int 1)%fl = true →
   recomb = of_int 0).
Proof.
  intros Hmode csi recomb.
  split; [exact (recombination_BOX _ _ _ _ Hmode) |].
  subst recomb. generalize csi as c. clear csi. intros c. split.
  - intros [r ->] Hpos Hgt. cbn in Hpos. apply Rltb_lt in Hpos.
    destruct (BOX_ALPHA physics) as [a | | |]; cbn in Hgt; try discriminate.
    + apply Rltb_lt in Hgt.
      cbn [fadd flog]. rewrite (Rcmp_Gt (a + r) 0) by lra.
      rewrite fdiv_fin by lra.
      assert (Hq : (0 < ln (a + r) / r)%R).
      { apply Rdiv_lt_0_compat; [apply ln_pos; lra | lra]. }
      unfold fmax, of_int. cbn [flt].
      rewrite (Rltb_true _ _ Hq). cbn [flt]. apply Rltb_true, Hq.
    + cbn [fadd flog fdiv fopp]. rewrite (Rcmp_Gt r 0) by lra.
      reflexivity.
  - intros Hpos Hle.
    destruct c as [r | | |]; cbn in Hpos; try discriminate.
    + apply Rltb_lt in Hpos.
      destruct (BOX_ALPHA physics) as [a | | |]; cbn in Hle; try discriminate.
      * apply Rleb_le in Hle. cbn [fadd flog].
        destruct (total_order_T (a + r) 0) as [[Hlt | Heq] | Hgt].
        -- rewrite (Rcmp_Lt _ _ Hlt). reflexivity.
        -- rewrite (Rcmp_Eq _ _ Heq). cbn [fdiv fopp].
           rewrite (Rcmp_Gt r 0) by lra. reflexivity.
        -- rewrite (Rcmp_Gt _ _ Hgt). rewrite fdiv_fin by lra.
           assert (Hq : (ln (a + r) / r <= 0)%R).
           { pose proof (ln_nonpos (a + r) Hgt Hle) as Hln.
             assert (Hi : (0 < / r)%R) by (apply Rinv_0_lt_compat; lra).
             unfold Rdiv. nra. }
           unfold fmax, of_int. cbn [flt].
           rewrite (Rltb_false _ _ Hq). reflexivity.
      * reflexivity.
    + destruct (BOX_ALPHA physics) as [a | | |]; cbn in Hle; discriminate.
Qed.

(** ** The Birks branch *)

(** C3: under [mode = BIRKS], for a finite [dEdx >= 0] and positive
    constants [BIRKS_Ab], [BIRKS_kb], [E_FIELD] and [LAR_DENSITY], the branch
    computes [recomb = BIRKS_Ab / (1 + BIRKS_kb * dEdx / (E_FIELD *
    LAR_DENSITY))], a finite value with [0 <= recomb <= BIRKS_Ab]. *)
Theorem birks_recombination mode track dEdx tracks :
  mode ≠ BOX physics → mode = BIRKS physics →
  positive (BIRKS_Ab physics) → positive (BIRKS_kb physics) →
  positive (E_FIELD detector) → positive (LAR_DENSITY detector) →
  finite dEdx → (of_int 0 <=? dEdx)%fl = true →
  let recomb :=
    (BIRKS_Ab physics
     / (of_int 1 + BIRKS_kb physics * dEdx
                   / (E_FIELD detector * LAR_DENSITY detector)))%fl in
  recombination mode track dEdx tracks = Ret recomb tracks ∧
  finite recomb ∧
  (of_int 0 <=? recomb)%fl = true ∧
  (recomb <=? BIRKS_Ab physics)%fl = true.
Proof.
  intros Hbox Hmode (ab & Hab & Hab0) (kb & Hkb & Hkb0) (e & He & He0)
    (rho & Hrho & Hrho0) (d & ->) Hd recomb.
  split; [exact (recombination_BIRKS _ _ _ _ Hbox Hmode) |].
  subst recomb. rewrite Hab, Hkb, He, Hrho.
  cbn in Hd. apply Rleb_le in Hd.
  assert (Her : (0 < e * rho)%R) by (apply Rmult_lt_0_compat; assumption).
  assert (Ht : (0 <= kb * d / (e * rho))%R).
  { assert (Hi : (0 < / (e * rho))%R) by (apply Rinv_0_lt_compat; exact Her).
    unfold Rdiv. apply Rmult_le_pos; [apply Rmult_le_pos |]; lra. }
  cbn [fmul]. rewrite fdiv_fin by lra. cbn [of_int fadd].
  rewrite fdiv_fin by lra.
  set (den := (1 + kb * d / (e * rho))%R) in *.
  assert (Hden : (1 <= den)%R) by (unfold den; lra).
  assert (Hinv : (0 < / den <= 1)%R).
  { split; [apply Rinv_0_lt_compat; lra |].
    rewrite <- Rinv_1. apply Rinv_le_contravar; lra. }
  assert (Hlo : (0 <= ab / den)%R).
  { unfold Rdiv. apply Rmult_le_pos; lra. }
  assert (Hhi : (ab / den <= ab)%R).
  { unfold Rdiv. rewrite <- (Rmult_1_r ab) at 2.
    apply Rmult_le_compat_l; lra. }
  split; [eexists; reflexivity |].
  split; cbn [fle]; apply Rleb_true; assumption.
Qed.

(** ** Invalid mode *)

Lemma launch_from_raise mode itrk threads tracks e tracks' :
  quench mode itrk tracks = Raise e tracks' →
  launch_from mode itrk (S threads) tracks = Raise e tracks'.
Proof. intros H. open_launch. exact (bind_raise _ _ _ _ _ H). Qed.

(** C7: with a mode that is none of [BOX], [BIRKS] and [DATA], a thread
    that addresses a segment raises the invalid-mode error ([ValueError])
    before any store: the array is left as it was; and so does every launch
    on the array, at its first thread. *)
Theorem invalid_mode_raises mode itrk tracks :
  mode ≠ BOX physics → mode ≠ BIRKS physics → mode ≠ DATA physics →
  (itrk < length tracks)%nat →
  quench mode itrk tracks = Raise ValueError tracks ∧
  ∀ threads, launch mode (S threads) tracks = Raise ValueError tracks.
Proof.
  intros Hbox Hbirks Hdata Hlt.
  assert (Hq : ∀ i, (i < length tracks)%nat →
               quench mode i tracks = Raise ValueError tracks).
  { intros i Hi. destruct (lookup_lt_is_Some_2 _ _ Hi) as [seg Hseg].
    rewrite (quench_unfold _ _ _ _ Hseg).
    rewrite (recombination_invalid _ _ _ _ Hbox Hbirks Hdata). reflexivity. }
  split; [exact (Hq itrk Hlt) |].
  intros threads. apply launch_from_raise, Hq. lia.
Qed.

(** ** Not-a-number *)

(** The branch leaves the two output fields of every segment alone. *)
Lemma recombination_outputs mode track dEdx tracks seg j s :
  tracks !! track = Some seg →
  tracks !! j = Some s →
  ∃ s1,
    final (recombination mode track dEdx tracks) !! j = Some s1 ∧
    Segment.n_electrons s1 = Segment.n_electrons s ∧
    Segment.n_photons s1 = Segment.n_photons s.
Proof.
  intros Hseg Hs.
  destruct (recombination_state mode track dEdx tracks seg Hseg)
    as (seg1 & -> & Hseg1).
  destruct (decide (j = track)) as [-> | Hne].
  - exists seg1. split.
    + apply list_lookup_insert_eq. eapply lookup_lt_Some, Hseg.
    + assert (s = seg) as -> by congruence.
      destruct Hseg1 as [-> | (v & _ & _ & _ & ->)]; split; reflexivity.
  - exists s. rewrite list_lookup_insert_ne by congruence. auto.
Qed.

(** C8, as the code has it: when the model branch produces a not-a-number
    [recomb] for a segment, the thread of that segment raises the
    invalid-value error ([RuntimeError]) before it writes [n_electrons] or
    [n_photons]: these two fields of every segment are as before the
    thread. *)
Theorem nan_recombination_raises mode itrk tracks seg recomb tracks1 :
  tracks !! itrk = Some seg →
  recombination mode itrk (Segment.dEdx seg) tracks = Ret recomb tracks1 →
  isnan recomb = true →
  quench mode itrk tracks = Raise RuntimeError tracks1 ∧
  (∀ j s, tracks !! j = Some s →
     ∃ s1, tracks1 !! j = Some s1 ∧
           Segment.n_electrons s1 = Segment.n_electrons s ∧
           Segment.n_photons s1 = Segment.n_photons s).
Proof.
  intros Hseg Hrec Hnan. split.
  - rewrite (quench_unfold _ _ _ _ Hseg), Hrec, Hnan. reflexivity.
  - intros j s Hs.
    pose proof (recombination_outputs mode itrk (Segment.dEdx seg) tracks
                  seg j s Hseg Hs) as Hout.
    rewrite Hrec in Hout. exact Hout.
Qed.

(** ** What a thread may change *)

(** C9: a thread that completes leaves the array at its length, leaves
    every segment but its own untouched, and on its own segment keeps
    [dEdx], [dE], [x], [y], [z], and under Box and Birks [pixel_plane]
    too: it writes [n_electrons] and [n_photons], and [pixel_plane] in Data
    mode only. *)
Theorem quench_frame mode itrk tracks tracks' :
  quench mode itrk tracks = Ret tt tracks' →
  length tracks' = length tracks ∧
  (∀ j, j ≠ itrk → tracks' !! j = tracks !! j) ∧
  (∀ seg seg', tracks !! itrk = Some seg → tracks' !! itrk = Some seg' →
     Segment.dEdx seg' = Segment.dEdx seg ∧
     Segment.dE seg' = Segment.dE seg ∧
     Segment.x seg' = Segment.x seg ∧
     Segment.y seg' = Segment.y seg ∧
     Segment.z seg' = Segment.z seg ∧
     (mode = BOX physics ∨ mode = BIRKS physics →
      Segment.pixel_plane seg' = Segment.pixel_plane seg)).
Proof.
  intros Hq.
  destruct (tracks !! itrk) as [seg |] eqn:Hseg.
  - rewrite (quench_unfold _ _ _ _ Hseg) in Hq.
    destruct (recombination_state mode itrk (Segment.dEdx seg) tracks seg Hseg)
      as (seg1 & Hfinal & Hseg1).
    destruct (recombination mode itrk (Segment.dEdx seg) tracks)
      as [recomb tracks1 | e tracks1]; [| discriminate].
    cbn [final] in Hfinal. subst tracks1.
    destruct (isnan recomb); [discriminate |].
    assert (Hlt : (itrk < length tracks)%nat) by (eapply lookup_lt_Some, Hseg).
    rewrite list_lookup_insert_eq in Hq by exact Hlt.
    injection Hq as <-. rewrite list_insert_insert_eq.
    split; [apply length_insert |].
    split; [intros j Hj; apply list_lookup_insert_ne; congruence |].
    intros s s' [= <-]. rewrite list_lookup_insert_eq by exact Hlt.
    intros [= <-].
    destruct Hseg1 as [-> | (v & Hdata & Hbox & Hbirks & ->)];
      repeat (split; [reflexivity |]).
    + reflexivity.
    + intros [H | H]; contradiction.
  - rewrite quench_out_of_range in Hq by (apply lookup_ge_None; exact Hseg).
    injection Hq as <-.
    split; [reflexivity |]. split; [reflexivity |].
    intros seg seg' [=].
Qed.

End Properties.

(** ** The sample configuration at work *)

Lemma Ret_final (o : outcome unit) tracks :
  o = Ret tt tracks → o = Ret tt (final o).
Proof. intros ->. reflexivity. Qed.

(** Evaluate the sample's constants and the float operations on them. *)
Ltac sample_eval :=
  cbn [BOX BIRKS DATA BOX_ALPHA BOX_BETA BIRKS_Ab BIRKS_kb W_ION
       DEFAULT_PLANE_INDEX E_FIELD LAR_DENSITY V_DRIFT ELECTRON_LIFETIME
       W_PH SCINT_PRESCALE Sample.physics Sample.detector Sample.light
       Sample.segment Sample.box Sample.inner Sample.outer Sample.still
       axis0 axis1 axis2
       Segment.dEdx Segment.dE Segment.x Segment.y Segment.z];
  fl_eval.

(** The Birks model on the sample: [dEdx = 2], [dE = 10]. *)
Lemma sample_birks_completes :
  let run := quench Sample.physics Sample.detector Sample.light
               None None 2 0 [Sample.inner] in
  run = Ret tt (final run).
Proof.
  intros run. subst run. eapply Ret_final.
  eapply (quench_returns _ _ _ _ _ 2 0%nat [Sample.inner] Sample.inner);
    [reflexivity | | |].
  - apply recombination_BIRKS; [cbn; lia | reflexivity].
  - sample_eval. reflexivity.
  - reflexivity.
Qed.

(** The Box model at [dEdx = 0]: [csi = 0], the quotient is minus infinity
    and the floor makes [recomb] 0. *)
Lemma sample_box_zero_recomb :
  recombination Sample.physics Sample.detector None None 1 0
    (Segment.dEdx Sample.still) [Sample.still]
  = Ret (of_int 0) [Sample.still].
Proof.
  rewrite recombination_BOX by reflexivity. f_equal.
  unfold csi_of. sample_eval.
  assert (Hln : (ln (93 / 100 + 207 / 1000 * 0 / (5 / 10 * (14 / 10))) < 0)%R).
  { apply ln_neg; lra. }
  rewrite (Rcmp_Lt _ _ Hln). reflexivity.
Qed.

(** ** The theorems on the sample *)

Lemma quench_final_formulas_witness :
  let run := quench Sample.physics Sample.detector Sample.light
               None None 2 0 [Sample.inner] in
  ∃ recomb tracks1 seg',
    recombination Sample.physics Sample.detector None None 2 0
      (Segment.dEdx Sample.inner) [Sample.inner] = Ret recomb tracks1 ∧
    final run !! 0%nat = Some seg' ∧
    Segment.n_electrons seg'
    = (recomb * Segment.dE Sample.inner / W_ION Sample.physics)%fl ∧
    Segment.n_photons seg'
    = ((Segment.dE Sample.inner / W_PH Sample.light - Segment.n_electrons seg')
       * SCINT_PRESCALE Sample.light)%fl.
Proof.
  intros run.
  apply (quench_final_formulas Sample.physics Sample.detector Sample.light
           None None 2 0%nat [Sample.inner] Sample.inner (final run)).
  - reflexivity.
  - exact sample_birks_completes.
Defined.

Lemma box_recombination_witness :
  let recomb dEdx :=
    fmax (of_int 0)
      (flog (BOX_ALPHA Sample.physics
             + csi_of Sample.physics Sample.detector dEdx)
       / csi_of Sample.physics Sample.detector dEdx)%fl in
  (of_int 0 <? recomb (Fin 2))%fl = true ∧ recomb (Fin (1 / 10)) = of_int 0.
Proof.
  intros recomb. split.
  - apply (box_recombination Sample.physics Sample.detector None None
             1 0%nat (Fin 2) [] eq_refl).
    + sample_eval. apply finite_Fin.
    + sample_eval. reflexivity.
    + sample_eval. reflexivity.
  - apply (box_recombination Sample.physics Sample.detector None None
             1 0%nat (Fin (1 / 10)) [] eq_refl).
    + sample_eval. reflexivity.
    + sample_eval. reflexivity.
Defined.

Lemma birks_recombination_witness :
  let recomb :=
    (BIRKS_Ab Sample.physics
     / (of_int 1 + BIRKS_kb Sample.physics * Fin 2
                   / (E_FIELD Sample.detector * LAR_DENSITY Sample.detector)))%fl in
  recombination Sample.physics Sample.detector None None 2 0 (Fin 2)
    [Sample.inner] = Ret recomb [Sample.inner] ∧
  finite recomb ∧
  (of_int 0 <=? recomb)%fl = true ∧
  (recomb <=? BIRKS_Ab Sample.physics)%fl = true.
Proof.
  apply (birks_recombination Sample.physics Sample.detector None None
           2 0%nat (Fin 2) [Sample.inner]).
  - cbn. lia.
  - reflexivity.
  - apply positive_Fin. lra.
  - apply positive_Fin. lra.
  - apply positive_Fin. lra.
  - apply positive_Fin. lra.
  - apply finite_Fin.
  - sample_eval. reflexivity.
Defined.

Lemma invalid_mode_raises_witness :
  quench Sample.physics Sample.detector Sample.light None None 99 0
    [Sample.inner] = Raise ValueError [Sample.inner] ∧
  ∀ threads,
    launch Sample.physics Sample.detector Sample.light None None 99
      (S threads) [Sample.inner] = Raise ValueError [Sample.inner].
Proof.
  apply (invalid_mode_raises Sample.physics Sample.detector Sample.light
           None None 99 0%nat [Sample.inner]).
  - cbn. lia.
  - cbn. lia.
  - cbn. lia.
  - cbn. lia.
Defined.

(** C8, the counterexample: on the sample, a Box segment with [dEdx = 0]
    has [recomb = 0]; the thread completes and writes both outputs, and no
    invalid-value error is raised. *)
Lemma box_zero_dEdx_no_error :
  quench Sample.physics Sample.detector Sample.light None None 1 0
    [Sample.still]
  = Ret tt [with_outputs Sample.physics Sample.light (of_int 0) (Fin 10)
              Sample.still] ∧
  ∀ tracks',
    quench Sample.physics Sample.detector Sample.light None None 1 0
      [Sample.still] ≠ Raise RuntimeError tracks'.
Proof.
  assert (Hq : quench Sample.physics Sample.detector Sample.light
                 None None 1 0 [Sample.still]
               = Ret tt [with_outputs Sample.physics Sample.light (of_int 0)
                           (Fin 10) Sample.still]).
  { exact (quench_returns _ _ _ _ _ 1 0%nat [Sample.still] Sample.still
             (of_int 0) [Sample.still] Sample.still eq_refl
             sample_box_zero_recomb eq_refl eq_refl). }
  split; [exact Hq |]. intros tracks'. rewrite Hq. discriminate.
Qed.

Lemma nan_recombination_raises_witness :
  quench Sample.physics Sample.detector Sample.light None None 2 0
    [Sample.broken] = Raise RuntimeError [Sample.broken] ∧
  (∀ j s, [Sample.broken] !! j = Some s →
     ∃ s1, [Sample.broken] !! j = Some s1 ∧
           Segment.n_electrons s1 = Segment.n_electrons s ∧
           Segment.n_photons s1 = Segment.n_photons s).
Proof.
  apply (nan_recombination_raises Sample.physics Sample.detector
           Sample.light None None 2 0%nat [Sample.broken] Sample.broken NaN
           [Sample.broken]).
  - reflexivity.
  - rewrite recombination_BIRKS by (cbn; lia). reflexivity.
  - reflexivity.
Defined.

Lemma quench_frame_witness :
  let tracks' := final (quench Sample.physics Sample.detector Sample.light
                          None None 2 0 [Sample.inner]) in
  length tracks' = length [Sample.inner] ∧
  (∀ j, j ≠ 0%nat → tracks' !! j = [Sample.inner] !! j) ∧
  (∀ seg seg', [Sample.inner] !! 0%nat = Some seg → tracks' !! 0%nat = Some seg' →
     Segment.dEdx seg' = Segment.dEdx seg ∧
     Segment.dE seg' = Segment.dE seg ∧
     Segment.x seg' = Segment.x seg ∧
     Segment.y seg' = Segment.y seg ∧
     Segment.z seg' = Segment.z seg ∧
     (2 = BOX Sample.physics ∨ 2 = BIRKS Sample.physics →
      Segment.pixel_plane seg' = Segment.pixel_plane seg)).
Proof.
  intros tracks'.
  apply (quench_frame Sample.physics Sample.detector Sample.light
           None None 2 0%nat [Sample.inner] tracks').
  exact sample_birks_completes.
Defined.

(** ** The Data mode of the module as it is *)

Lemma sample_data_unbound i dEdx tracks :
  recombination Sample.physics Sample.detector None None 3 i dEdx tracks
  = Raise NameError tracks.
Proof.
  apply recombination_unbound; [reflexivity | cbn; lia | cbn; lia | reflexivity].
Qed.

Lemma sample_data_thread seg :
  quench Sample.physics Sample.detector Sample.light None None 3 0 [seg]
  = Raise NameError [seg].
Proof.
  rewrite (quench_unfold _ _ _ _ _ 3 0%nat [seg] seg eq_refl).
  rewrite sample_data_unbound. reflexivity.
Qed.

(** C4, on the module as it is: a Data thread raises [NameError] at line
    40, where [TPC_BORDERS] is read and is not bound.  The plane loop does
    not start: no plane is selected and [pixel_plane] of the segment keeps
    its value, 7 here. *)
Lemma data_selects_no_plane :
  quench Sample.physics Sample.detector Sample.light None None 3 0
    [Sample.inner] = Raise NameError [Sample.inner] ∧
  Segment.pixel_plane Sample.inner = 7.
Proof. split; [apply sample_data_thread | reflexivity]. Qed.

(** C5, on the module as it is: a Data thread on a segment far from every
    plane raises [NameError] at line 40 and does not complete;
    [pixel_plane] keeps its value, which is not [DEFAULT_PLANE_INDEX], and
    [n_electrons] and [n_photons] are not written. *)
Lemma data_no_plane_raises :
  quench Sample.physics Sample.detector Sample.light None None 3 0
    [Sample.outer] = Raise NameError [Sample.outer] ∧
  Segment.pixel_plane Sample.outer ≠ DEFAULT_PLANE_INDEX Sample.detector.
Proof. split; [apply sample_data_thread | cbn; lia]. Qed.



(** ** Threads and their segments *)

Ltac open_finish := unfold finish.
Ltac open_thread_outcome := unfold thread_outcome.
Ltac open_with_outputs := unfold with_outputs.
Ltac open_launch_def := unfold launch.
Ltac open_csi := unfold csi_of.

Section Threads.
Variable physics : physics_consts.
Variable detector : detector_consts.
Variable light : light_consts.
Variable TPC_BORDERS : option (list plane).
Variable exp : option (fl → fl).

Abbreviation recombination :=
  (recombination physics detector TPC_BORDERS exp).
Abbreviation quench := (quench physics detector light TPC_BORDERS exp).
Abbreviation launch := (launch physics detector light TPC_BORDERS exp).
Abbreviation launch_from :=
  (launch_from physics detector light TPC_BORDERS exp).
Abbreviation csi_of := (csi_of physics detector).
Abbreviation selected := (selected detector).
Abbreviation with_outputs := (with_outputs physics light).
Abbreviation thread_outcome :=
  (thread_outcome physics detector light TPC_BORDERS exp).
Abbreviation finish := (finish physics light).

Lemma finish_place recomb dE i tracks seg1 :
  (i < length tracks)%nat →
  (if isnan recomb then Raise RuntimeError (<[i := seg1]> tracks)
   else match <[i := seg1]> tracks !! i with
        | Some s =>
            Ret tt (<[i := with_outputs recomb dE s]> (<[i := seg1]> tracks))
        | None => Raise IndexError (<[i := seg1]> tracks)
        end)
  = place i tracks (finish recomb dE seg1).
Proof.
  intros Hlt. unfold place. open_finish.
  destruct (isnan recomb); cbn [fst snd]; [reflexivity |].
  rewrite list_lookup_insert_eq by exact Hlt.
  rewrite list_insert_insert_eq. reflexivity.
Qed.

(** The thread on [tracks[i]] is [thread_outcome] on that segment. *)
Lemma quench_thread_outcome mode i tracks seg :
  tracks !! i = Some seg →
  quench mode i tracks = place i tracks (thread_outcome mode seg).
Proof.
  intros Hseg.
  assert (Hlt : (i < length tracks)%nat) by (eapply lookup_lt_Some, Hseg).
  assert (Hid : <[i := seg]> tracks = tracks) by (apply list_insert_id, Hseg).
  rewrite (quench_unfold physics detector light TPC_BORDERS exp _ _ _ _ Hseg). open_thread_outcome.
  destruct (Z.eqb_spec mode (BOX physics)) as [Hbox | Hbox].
  { rewrite (recombination_BOX physics detector TPC_BORDERS exp _ _ _ _ Hbox).
    rewrite <- finish_place by exact Hlt. rewrite Hid. reflexivity. }
  destruct (Z.eqb_spec mode (BIRKS physics)) as [Hbirks | Hbirks].
  { rewrite (recombination_BIRKS physics detector TPC_BORDERS exp _ _ _ _ Hbox Hbirks).
    rewrite <- finish_place by exact Hlt. rewrite Hid. reflexivity. }
  destruct (Z.eqb_spec mode (DATA physics)) as [Hdata | Hdata].
  - assert (HT : (∃ planes, TPC_BORDERS = Some planes) ∨ TPC_BORDERS = None)
      by (destruct TPC_BORDERS; eauto).
    destruct HT as [(planes & HT) | HT].
    + rewrite (recombination_DATA physics detector TPC_BORDERS exp
                 _ _ _ _ _ _ HT Hbox Hbirks Hdata Hseg).
      rewrite HT. cbv zeta.
      destruct (selected planes seg =? DEFAULT_PLANE_INDEX detector)%Z.
      * apply finish_place, Hlt.
      * destruct (getitem planes (selected planes seg)) as [p |];
          [destruct exp as [f |] |].
        -- apply finish_place, Hlt.
        -- reflexivity.
        -- reflexivity.
    + rewrite (recombination_unbound physics detector TPC_BORDERS exp
                 _ _ _ _ HT Hbox Hbirks Hdata).
      rewrite HT. unfold place. cbn [fst snd]. rewrite Hid. reflexivity.
  - rewrite (recombination_invalid physics detector TPC_BORDERS exp _ _ _ _ Hbox Hbirks Hdata).
    unfold place. cbn [fst snd]. rewrite Hid. reflexivity.
Qed.

Lemma quench_final_length mode i tracks :
  length (final (quench mode i tracks)) = length tracks.
Proof.
  destruct (tracks !! i) as [seg |] eqn:Hseg.
  - rewrite (quench_thread_outcome _ _ _ _ Hseg). unfold place.
    destruct (snd (thread_outcome mode seg)); cbn [final]; apply length_insert.
  - rewrite quench_out_of_range by (apply lookup_ge_None; exact Hseg).
    reflexivity.
Qed.

Lemma holds_same_inputs p s1 s2 :
  same_inputs s1 s2 → holds p s1 = holds p s2.
Proof.
  intros (_ & _ & Hx & Hy & Hz). unfold holds. rewrite Hx, Hy, Hz. reflexivity.
Qed.

Lemma first_match_same_inputs planes ip s1 s2 :
  same_inputs s1 s2 → first_match planes ip s1 = first_match planes ip s2.
Proof.
  intros Hsame. revert ip.
  induction planes as [| p rest IH]; intros ip; [reflexivity |].
  cbn [first_match]. rewrite (holds_same_inputs p s1 s2 Hsame), IH.
  reflexivity.
Qed.

Lemma selected_same_inputs planes s1 s2 :
  same_inputs s1 s2 → selected planes s1 = selected planes s2.
Proof.
  intros Hsame. open_selected.
  rewrite (first_match_same_inputs _ _ _ _ Hsame). reflexivity.
Qed.

Lemma same_inputs_finish recomb dE seg1 seg :
  same_inputs seg1 seg → same_inputs (fst (finish recomb dE seg1)) seg.
Proof.
  intros Hsame. open_finish. destruct (isnan recomb); exact Hsame.
Qed.

(** A thread keeps the input fields of its segment, however it ends. *)
Lemma thread_outcome_inputs mode seg :
  same_inputs (fst (thread_outcome mode seg)) seg.
Proof.
  assert (Hrefl : same_inputs seg seg) by (repeat split).
  open_thread_outcome.
  destruct (mode =? BOX physics)%Z; [apply same_inputs_finish, Hrefl |].
  destruct (mode =? BIRKS physics)%Z; [apply same_inputs_finish, Hrefl |].
  destruct (mode =? DATA physics)%Z; [| exact Hrefl].
  destruct TPC_BORDERS as [planes |]; [| exact Hrefl].
  cbv zeta.
  destruct (selected planes seg =? DEFAULT_PLANE_INDEX detector)%Z;
    [apply same_inputs_finish, Hrefl |].
  destruct (getitem planes (selected planes seg)); [destruct exp |];
    [apply same_inputs_finish, Hrefl | exact Hrefl | exact Hrefl].
Qed.

Lemma finish_again recomb dE seg1 :
  snd (finish recomb dE seg1) = None →
  finish recomb dE (fst (finish recomb dE seg1)) = finish recomb dE seg1.
Proof.
  open_finish. destruct (isnan recomb); [discriminate |].
  intros _. reflexivity.
Qed.

(** On the segment a completed thread left, the thread does the same. *)
Lemma thread_outcome_again mode seg :
  snd (thread_outcome mode seg) = None →
  thread_outcome mode (fst (thread_outcome mode seg))
  = thread_outcome mode seg.
Proof.
  intros Hret.
  pose proof (thread_outcome_inputs mode seg) as Hin.
  assert (Hsel : ∀ planes,
            selected planes (fst (thread_outcome mode seg))
            = selected planes seg)
    by (intros planes; apply selected_same_inputs, Hin).
  destruct Hin as (HdEdx & HdE & _ & _ & Hz).
  revert Hret HdEdx HdE Hz Hsel. open_thread_outcome.
  destruct (mode =? BOX physics)%Z.
  { intros Hret -> -> _ _. exact (finish_again _ _ _ Hret). }
  destruct (mode =? BIRKS physics)%Z.
  { intros Hret -> -> _ _. exact (finish_again _ _ _ Hret). }
  destruct (mode =? DATA physics)%Z; [| discriminate].
  destruct TPC_BORDERS as [planes |]; [| discriminate].
  cbv zeta.
  destruct (selected planes seg =? DEFAULT_PLANE_INDEX detector)%Z eqn:Hdef.
  - intros Hret _ -> _ Hsel. rewrite Hsel, Hdef. revert Hret. open_finish.
    cbn [isnan of_int fst snd]. reflexivity.
  - destruct (getitem planes (selected planes seg)) as [p |] eqn:Hget;
      [| discriminate].
    destruct exp as [f |]; [| discriminate].
    intros Hret _ -> -> Hsel. rewrite Hsel, Hdef, Hget. revert Hret.
    open_finish.
    destruct (isnan _); [discriminate |].
    intros _. reflexivity.
Qed.

(** ** Independence of the threads *)

(** X1: what a thread does depends on the mode and on its own segment
    only: two threads that address equal segments, in whatever arrays and
    at whatever indices, both return or both raise the same exception, and
    leave the same segment at their index. *)
Theorem quench_depends_on_own_segment mode i j tracks1 tracks2 seg :
  tracks1 !! i = Some seg → tracks2 !! j = Some seg →
  ∃ seg',
    (quench mode i tracks1 = Ret tt (<[i := seg']> tracks1) ∧
     quench mode j tracks2 = Ret tt (<[j := seg']> tracks2)) ∨
    (∃ e, quench mode i tracks1 = Raise e (<[i := seg']> tracks1) ∧
          quench mode j tracks2 = Raise e (<[j := seg']> tracks2)).
Proof.
  intros H1 H2.
  rewrite (quench_thread_outcome _ _ _ _ H1), (quench_thread_outcome _ _ _ _ H2).
  exists (fst (thread_outcome mode seg)). unfold place.
  destruct (snd (thread_outcome mode seg)) as [e |]; [right | left]; eauto.
Qed.

(** X2: two threads on different indices commute: if thread [i] and then
    thread [j] complete, so do thread [j] and then thread [i], with the same
    final array. *)
Theorem quench_threads_commute mode i j tracks t1 t12 :
  i ≠ j →
  quench mode i tracks = Ret tt t1 →
  quench mode j t1 = Ret tt t12 →
  ∃ t2, quench mode j tracks = Ret tt t2 ∧ quench mode i t2 = Ret tt t12.
Proof.
  intros Hij Hi Hj.
  destruct (tracks !! i) as [si |] eqn:Hsi.
  - rewrite (quench_thread_outcome _ _ _ _ Hsi) in Hi. unfold place in Hi.
    destruct (snd (thread_outcome mode si)) eqn:Hoi; [discriminate |].
    injection Hi as <-.
    destruct (tracks !! j) as [sj |] eqn:Hsj.
    + assert (Hsj1 : <[i := fst (thread_outcome mode si)]> tracks !! j = Some sj)
        by (rewrite list_lookup_insert_ne by exact Hij; exact Hsj).
      rewrite (quench_thread_outcome _ _ _ _ Hsj1) in Hj. unfold place in Hj.
      destruct (snd (thread_outcome mode sj)) eqn:Hoj; [discriminate |].
      injection Hj as <-.
      exists (<[j := fst (thread_outcome mode sj)]> tracks). split.
      * rewrite (quench_thread_outcome _ _ _ _ Hsj). unfold place.
        rewrite Hoj. reflexivity.
      * assert (Hsi2 : <[j := fst (thread_outcome mode sj)]> tracks !! i
                       = Some si)
          by (rewrite list_lookup_insert_ne by congruence; exact Hsi).
        rewrite (quench_thread_outcome _ _ _ _ Hsi2). unfold place.
        rewrite Hoi. f_equal. apply list_insert_insert_ne. exact Hij.
    + apply lookup_ge_None in Hsj.
      rewrite quench_out_of_range in Hj by (rewrite length_insert; exact Hsj).
      injection Hj as <-.
      exists tracks. split; [apply quench_out_of_range; exact Hsj |].
      rewrite (quench_thread_outcome _ _ _ _ Hsi). unfold place.
      rewrite Hoi. reflexivity.
  - apply lookup_ge_None in Hsi.
    rewrite quench_out_of_range in Hi by exact Hsi. injection Hi as <-.
    exists t12. split; [exact Hj |].
    apply quench_out_of_range.
    pose proof (quench_final_length mode j tracks) as Hlen.
    rewrite Hj in Hlen. cbn [final] in Hlen. rewrite Hlen. exact Hsi.
Qed.

(** X3: a completed thread can be run again: on the array it left it
    completes and leaves that array as it is. *)
Theorem quench_idempotent mode i tracks t1 :
  quench mode i tracks = Ret tt t1 →
  quench mode i t1 = Ret tt t1.
Proof.
  intros Hq.
  destruct (tracks !! i) as [seg |] eqn:Hseg.
  - assert (Hlt : (i < length tracks)%nat) by (eapply lookup_lt_Some, Hseg).
    rewrite (quench_thread_outcome _ _ _ _ Hseg) in Hq. unfold place in Hq.
    destruct (snd (thread_outcome mode seg)) eqn:Ho; [discriminate |].
    injection Hq as <-.
    assert (H1 : <[i := fst (thread_outcome mode seg)]> tracks !! i
                 = Some (fst (thread_outcome mode seg)))
      by (apply list_lookup_insert_eq; exact Hlt).
    rewrite (quench_thread_outcome _ _ _ _ H1).
    rewrite (thread_outcome_again _ _ Ho). unfold place. rewrite Ho.
    rewrite list_insert_insert_eq. reflexivity.
  - apply lookup_ge_None in Hseg.
    rewrite quench_out_of_range in Hq by exact Hseg. injection Hq as <-.
    apply quench_out_of_range. exact Hseg.
Qed.

(** ** How a thread can fail *)


(** ** The grid *)

Lemma quench_ret_other mode i tracks t1 k :
  quench mode i tracks = Ret tt t1 → k ≠ i → t1 !! k = tracks !! k.
Proof.
  intros Hq Hk.
  destruct (tracks !! i) as [seg |] eqn:Hseg.
  - rewrite (quench_thread_outcome _ _ _ _ Hseg) in Hq. unfold place in Hq.
    destruct (snd (thread_outcome mode seg)); [discriminate |].
    injection Hq as <-. apply list_lookup_insert_ne. congruence.
  - rewrite quench_out_of_range in Hq by (apply lookup_ge_None; exact Hseg).
    injection Hq as <-. reflexivity.
Qed.

(** A thread that completes on one array completes on every array with the
    same segment at its index, and leaves the same segment there. *)
Lemma quench_ret_transfer mode k ta tb t :
  ta !! k = tb !! k →
  quench mode k ta = Ret tt t →
  ∃ u, quench mode k tb = Ret tt u ∧ u !! k = t !! k.
Proof.
  intros Hsame Hq.
  destruct (ta !! k) as [seg |] eqn:Ha.
  - symmetry in Hsame.
    rewrite (quench_thread_outcome _ _ _ _ Ha) in Hq.
    rewrite (quench_thread_outcome _ _ _ _ Hsame). unfold place in *.
    destruct (snd (thread_outcome mode seg)); [discriminate |].
    injection Hq as <-. eexists. split; [reflexivity |].
    rewrite !list_lookup_insert_eq; [reflexivity | |];
      eapply lookup_lt_Some; eassumption.
  - symmetry in Hsame.
    rewrite quench_out_of_range in Hq by (apply lookup_ge_None; exact Ha).
    injection Hq as <-.
    exists tb. split; [| congruence].
    apply quench_out_of_range, lookup_ge_None. exact Hsame.
Qed.

Lemma launch_from_unfold mode i n tracks :
  launch_from mode i (S n) tracks
  = match quench mode i tracks with
    | Ret _ t1 => launch_from mode (S i) n t1
    | Raise e t1 => Raise e t1
    end.
Proof. reflexivity. Qed.

Lemma launch_from_out_of_range mode n :
  ∀ i tracks, (length tracks ≤ i)%nat →
              launch_from mode i n tracks = Ret tt tracks.
Proof.
  induction n as [| n IH]; intros i tracks Hi; [reflexivity |].
  rewrite launch_from_unfold, quench_out_of_range by exact Hi.
  apply IH. lia.
Qed.

Lemma launch_from_final_length mode n :
  ∀ i tracks, length (final (launch_from mode i n tracks)) = length tracks.
Proof.
  induction n as [| n IH]; intros i tracks; [reflexivity |].
  rewrite launch_from_unfold.
  pose proof (quench_final_length mode i tracks) as Hlen.
  destruct (quench mode i tracks) as [[] t1 | e t1]; cbn [final] in Hlen.
  - rewrite IH. exact Hlen.
  - exact Hlen.
Qed.

Lemma launch_from_add mode a b :
  ∀ i tracks,
    launch_from mode i (a + b) tracks
    = match launch_from mode i a tracks with
      | Ret _ t1 => launch_from mode (i + a) b t1
      | Raise e t1 => Raise e t1
      end.
Proof.
  induction a as [| a IH]; intros i tracks.
  - cbn [Nat.add]. rewrite Nat.add_0_r. reflexivity.
  - cbn [Nat.add]. rewrite !launch_from_unfold.
    destruct (quench mode i tracks) as [[] t1 | e t1]; [| reflexivity].
    rewrite IH. replace (S i + a)%nat with (i + S a)%nat by lia. reflexivity.
Qed.

(** X5: the threads of a grid past the end of the array do nothing: a
    launch of [length tracks + n] threads has the outcome of a launch of
    [length tracks] threads; and on an empty array every launch returns,
    whatever the mode, an invalid one included. *)
Theorem launch_oversized mode n tracks :
  launch mode (length tracks + n) tracks = launch mode (length tracks) tracks
  ∧ launch mode n [] = Ret tt [].
Proof.
  split.
  - open_launch_def. rewrite launch_from_add.
    pose proof (launch_from_final_length mode (length tracks) 0%nat tracks)
      as Hlen.
    destruct (launch_from mode 0 (length tracks) tracks) as [[] t1 | e t1];
      [| reflexivity].
    cbn [final] in Hlen. apply launch_from_out_of_range. cbn. lia.
  - open_launch_def. apply launch_from_out_of_range. cbn. lia.
Qed.

Lemma launch_from_returns mode n :
  ∀ i tracks t',
    launch_from mode i n tracks = Ret tt t' →
    ∀ k,
      ((i ≤ k < i + n)%nat →
       ∃ t, quench mode k tracks = Ret tt t ∧ t' !! k = t !! k) ∧
      ((k < i ∨ i + n ≤ k)%nat → t' !! k = tracks !! k).
Proof.
  induction n as [| n IH]; intros i tracks t' Hl k.
  - injection Hl as <-. split; [lia | reflexivity].
  - rewrite launch_from_unfold in Hl.
    destruct (quench mode i tracks) as [[] t1 | e t1] eqn:Hq; [| discriminate].
    destruct (IH _ _ _ Hl k) as (Hin & Hout). split.
    + intros Hk. destruct (decide (k = i)) as [-> | Hne].
      * exists t1. split; [exact Hq |]. apply Hout. lia.
      * destruct Hin as (t & Ht & Hk'); [lia |].
        destruct (quench_ret_transfer mode k t1 tracks t
                    (quench_ret_other _ _ _ _ _ Hq Hne) Ht) as (u & Hu & Huk).
        exists u. split; [exact Hu | congruence].
    + intros Hk. rewrite Hout by lia.
      apply (quench_ret_other _ _ _ _ _ Hq). lia.
Qed.

Lemma launch_from_completes mode n :
  ∀ i tracks,
    (∀ k, (i ≤ k < i + n)%nat → ∃ t, quench mode k tracks = Ret tt t) →
    ∃ t', launch_from mode i n tracks = Ret tt t'.
Proof.
  induction n as [| n IH]; intros i tracks Hall; [eexists; reflexivity |].
  rewrite launch_from_unfold.
  destruct (Hall i) as (t1 & Hq); [lia |]. rewrite Hq.
  apply IH. intros k Hk. destruct (Hall k) as (t & Ht); [lia |].
  assert (Hsame : tracks !! k = t1 !! k).
  { symmetry. apply (quench_ret_other _ _ _ _ _ Hq). lia. }
  destruct (quench_ret_transfer mode k tracks t1 t Hsame Ht) as (u & Hu & _).
  exists u. exact Hu.
Qed.

(** X6: a launch is the threads taken one by one on the array as it was
    given: a launch of [n] threads completes exactly when each of its
    threads completes on the initial array; the array it leaves then has at
    every index below [n] the segment that thread left, and past [n] the
    initial segment. *)
Theorem launch_pointwise mode n tracks :
  ((∃ t', launch mode n tracks = Ret tt t') ↔
   (∀ k, (k < n)%nat → ∃ t, quench mode k tracks = Ret tt t)) ∧
  (∀ t', launch mode n tracks = Ret tt t' →
     ∀ k, ((k < n)%nat →
           ∃ t, quench mode k tracks = Ret tt t ∧ t' !! k = t !! k) ∧
          ((n ≤ k)%nat → t' !! k = tracks !! k)).
Proof.
  split; [split |].
  - intros (t' & Hl) k Hk.
    destruct (proj1 (launch_from_returns _ _ _ _ _ Hl k)) as (t & Ht & _);
      [lia |].
    exists t. exact Ht.
  - intros Hall. apply launch_from_completes. intros k Hk. apply Hall. lia.
  - intros t' Hl k.
    destruct (launch_from_returns _ _ _ _ _ Hl k) as (Hin & Hout).
    split; intros Hk; [apply Hin | apply Hout]; lia.
Qed.

(** ** Plane selection at its edges *)

Lemma fle_nan_r a : (a <=? NaN)%fl = false.
Proof. destruct a; reflexivity. Qed.

(** X8: a position with a not-a-number coordinate fails the test of the
    plane loop for every plane, whatever the bounds: each comparison with
    NaN is false. *)
Theorem in_padded_box_nan p tx ty tz :
  isnan tx = true ∨ isnan ty = true ∨ isnan tz = true →
  in_padded_box p tx ty tz = false.
Proof.
  unfold in_padded_box.
  intros [H | [H | H]];
    [destruct tx | destruct ty | destruct tz]; try discriminate;
    rewrite fle_nan_r; rewrite ?andb_false_r, ?andb_false_l; reflexivity.
Qed.

Lemma fmin_fin a b : fmin (Fin a) (Fin b) = Fin (Rmin a b).
Proof.
  unfold fmin, Rmin. cbn [flt]. unfold Rltb.
  destruct (Rlt_dec b a) as [Hlt | Hge]; destruct (Rle_dec a b) as [Hle | Hgt];
    try reflexivity; f_equal; lra.
Qed.

Lemma fmax_fin a b : fmax (Fin a) (Fin b) = Fin (Rmax a b).
Proof.
  unfold fmax, Rmax. cbn [flt]. unfold Rltb.
  destruct (Rlt_dec a b) as [Hlt | Hge]; destruct (Rle_dec a b) as [Hle | Hgt];
    try reflexivity; f_equal; lra.
Qed.

Lemma Rleb_iff a b : Rleb a b = true ↔ (a <= b)%R.
Proof. split; [apply Rleb_le | apply Rleb_true]. Qed.

(** X9: on finite values the test of the plane loop is the padded box with
    closed bounds: a position [(x, y, z)] passes for a plane with bounds
    [[x0, x1]], [[y0, y1]], [[z0, z1]] exactly when
    [x0 - 0.02 <= x <= x1 + 0.02], [y0 - 0.02 <= y <= y1 + 0.02] and
    [min(z0, z1) - 0.02 <= z <= max(z0, z1) + 0.02]. *)
Theorem in_padded_box_finite x0 x1 y0 y1 z0 z1 x y z :
  in_padded_box
    {| axis0 := (Fin x0, Fin x1); axis1 := (Fin y0, Fin y1);
       axis2 := (Fin z0, Fin z1) |} (Fin x) (Fin y) (Fin z) = true
  ↔ (x0 - 2 / 100 <= x <= x1 + 2 / 100)%R ∧
    (y0 - 2 / 100 <= y <= y1 + 2 / 100)%R ∧
    (Rmin z0 z1 - 2 / 100 <= z <= Rmax z0 z1 + 2 / 100)%R.
Proof.
  unfold in_padded_box. cbn [axis0 axis1 axis2 fst snd].
  cbn [fsub fadd fopp tol]. rewrite fmin_fin, fmax_fin. cbn [fle].
  rewrite !andb_true_iff, !Rleb_iff.
  unfold Rmin, Rmax.
  destruct (Rle_dec (z1 + - (2 / 100)) (z0 + - (2 / 100)));
    destruct (Rle_dec (z1 + 2 / 100) (z0 + 2 / 100));
    destruct (Rle_dec z0 z1); lra.
Qed.

(** X10: the order of the two z-bounds of a plane does not matter for the
    test, when neither is not-a-number: the plane with its z-bounds swapped
    holds the same positions. *)
Theorem in_padded_box_z_order xb yb z0 z1 tx ty tz :
  isnan z0 = false → isnan z1 = false →
  in_padded_box {| axis0 := xb; axis1 := yb; axis2 := (z1, z0) |} tx ty tz
  = in_padded_box {| axis0 := xb; axis1 := yb; axis2 := (z0, z1) |} tx ty tz.
Proof.
  intros H0 H1. unfold in_padded_box. cbn [axis0 axis1 axis2 fst snd].
  f_equal. unfold fmin, fmax.
  destruct z0 as [a | | |], z1 as [b | | |]; try discriminate;
    cbn [fsub fadd fopp tol flt]; try reflexivity.
  unfold Rltb.
  destruct (Rlt_dec (a + - (2 / 100)) (b + - (2 / 100)));
    destruct (Rlt_dec (b + - (2 / 100)) (a + - (2 / 100)));
    destruct (Rlt_dec (a + 2 / 100) (b + 2 / 100));
    destruct (Rlt_dec (b + 2 / 100) (a + 2 / 100));
    try lra; try reflexivity;
    repeat match goal with
    | |- context [Fin ?u] =>
        match goal with
        | |- context [Fin ?v] =>
            lazymatch u with v => fail | _ => idtac end;
            replace u with v by lra
        end
    end; reflexivity.
Qed.

(** ** Ranges of the models *)

Lemma ln_le_pred y : (0 < y)%R → (ln y <= y - 1)%R.
Proof.
  intros Hy. pose proof (exp_ineq1_le (ln y)) as H.
  rewrite exp_ln in H by exact Hy. lra.
Qed.

(** X11: with [BOX_ALPHA <= 1] the Box value is a fraction: for a finite
    [csi > 0] the branch returns a finite [recomb] with
    [0 <= recomb <= 1]. *)
Theorem box_recomb_unit_interval mode track dEdx tracks a c :
  mode = BOX physics →
  BOX_ALPHA physics = Fin a → (a <= 1)%R →
  csi_of dEdx = Fin c → (0 < c)%R →
  ∃ r, recombination mode track dEdx tracks = Ret (Fin r) tracks ∧
       (0 <= r <= 1)%R.
Proof.
  intros Hmode Ha Ha1 Hc Hc0.
  rewrite (recombination_BOX physics detector TPC_BORDERS exp _ _ _ _ Hmode), Ha, Hc.
  cbn [fadd flog of_int].
  destruct (total_order_T (a + c) 0) as [[Hlt | Heq] | Hgt].
  - rewrite (Rcmp_Lt _ _ Hlt). exists 0%R. split; [reflexivity | lra].
  - rewrite (Rcmp_Eq _ _ Heq). cbn [fdiv fopp].
    rewrite (Rcmp_Gt c 0) by lra. exists 0%R. split; [reflexivity | lra].
  - rewrite (Rcmp_Gt _ _ Hgt), fdiv_fin by lra.
    unfold fmax, of_int. cbn [flt]. unfold Rltb.
    destruct (Rlt_dec 0 (ln (a + c) / c)) as [Hpos | Hneg].
    + eexists. split; [reflexivity |]. split; [lra |].
      pose proof (ln_le_pred (a + c) Hgt) as Hln.
      apply (Rmult_le_reg_r c); [exact Hc0 |].
      unfold Rdiv. rewrite Rmult_assoc, Rinv_l by lra. lra.
    + exists 0%R. split; [reflexivity | lra].
Qed.

(** X12: the Birks value falls as [dEdx] grows: for finite
    [0 <= d1 <= d2] and positive constants the branch returns finite values
    with [recomb(d2) <= recomb(d1)]; and at [dEdx = 0] it returns
    [BIRKS_Ab] itself. *)
Theorem birks_decreasing mode track tracks d1 d2 :
  mode ≠ BOX physics → mode = BIRKS physics →
  positive (BIRKS_Ab physics) → positive (BIRKS_kb physics) →
  positive (E_FIELD detector) → positive (LAR_DENSITY detector) →
  (0 <= d1)%R → (d1 <= d2)%R →
  ∃ r1 r2,
    recombination mode track (Fin d1) tracks = Ret (Fin r1) tracks ∧
    recombination mode track (Fin d2) tracks = Ret (Fin r2) tracks ∧
    (r2 <= r1)%R ∧
    (d1 = 0%R → Fin r1 = BIRKS_Ab physics).
Proof.
  intros Hbox Hmode (ab & Hab & Hab0) (kb & Hkb & Hkb0) (e & He & He0)
    (rho & Hrho & Hrho0) Hd1 Hd12.
  rewrite !(recombination_BIRKS physics detector TPC_BORDERS exp _ _ _ _ Hbox Hmode).
  rewrite Hab, Hkb, He, Hrho.
  assert (Her : (0 < e * rho)%R) by (apply Rmult_lt_0_compat; assumption).
  assert (Hi : (0 < / (e * rho))%R) by (apply Rinv_0_lt_compat; exact Her).
  assert (Ht : ∀ d, (0 <= d)%R → (0 <= kb * d / (e * rho))%R).
  { intros d Hd. unfold Rdiv.
    apply Rmult_le_pos; [apply Rmult_le_pos |]; lra. }
  pose proof (Ht d1 Hd1) as Ht1.
  assert (Hd2 : (0 <= d2)%R) by lra. pose proof (Ht d2 Hd2) as Ht2.
  assert (Ht12 : (kb * d1 / (e * rho) <= kb * d2 / (e * rho))%R).
  { unfold Rdiv. apply Rmult_le_compat_r; [lra |].
    apply Rmult_le_compat_l; lra. }
  cbn [fmul]. rewrite !fdiv_fin by lra. cbn [of_int fadd].
  rewrite !fdiv_fin by lra.
  eexists _, _. split; [reflexivity |]. split; [reflexivity |]. split.
  - unfold Rdiv. apply Rmult_le_compat_l; [lra |].
    apply Rinv_le_contravar; lra.
  - intros ->. f_equal. unfold Rdiv. rewrite Rmult_0_r, Rmult_0_l, Rplus_0_r.
    rewrite Rinv_1. lra.
Qed.

(** X14: the not-a-number test looks at [recomb] only.  A segment whose
    [dE] is not-a-number goes through whenever the branch value is a
    number: the thread completes and stores NaN in both [n_electrons] and
    [n_photons]. *)
Theorem nan_dE_undetected mode i tracks seg recomb t1 :
  tracks !! i = Some seg →
  recombination mode i (Segment.dEdx seg) tracks = Ret recomb t1 →
  isnan recomb = false →
  Segment.dE seg = NaN →
  ∃ t' seg',
    quench mode i tracks = Ret tt t' ∧ t' !! i = Some seg' ∧
    Segment.n_electrons seg' = NaN ∧ Segment.n_photons seg' = NaN.
Proof.
  intros Hseg Hrec Hnan HdE.
  assert (Hlt : (i < length tracks)%nat) by (eapply lookup_lt_Some, Hseg).
  destruct (recombination_state physics detector TPC_BORDERS exp mode i
              (Segment.dEdx seg) tracks seg Hseg) as (seg1 & Hfin & _).
  rewrite Hrec in Hfin. cbn [final] in Hfin. subst t1.
  pose proof (quench_returns physics detector light TPC_BORDERS exp mode i
                tracks seg _ _ _ Hseg Hrec Hnan
                (list_lookup_insert_eq _ _ _ Hlt)) as Hq.
  rewrite list_insert_insert_eq in Hq.
  eexists _, _. split; [exact Hq |].
  split; [apply list_lookup_insert_eq; exact Hlt |].
  open_with_outputs.
  cbn [Segment.n_electrons Segment.n_photons Segment.set_n_photons
       Segment.set_n_electrons].
  rewrite HdE.
  assert (Hmul : (recomb * NaN)%fl = NaN) by (destruct recomb; reflexivity).
  rewrite Hmul. split; reflexivity.
Qed.

(** X16: the Box model at [dEdx = 0] divides by zero and raises nothing:
    with finite constants, [BOX_ALPHA > 0] and [E_FIELD * LAR_DENSITY] not
    zero, [csi] is 0 and the branch returns [recomb = 0] or plus infinity,
    never not-a-number. *)
Theorem box_zero_dEdx mode track tracks a b e rho :
  mode = BOX physics →
  BOX_ALPHA physics = Fin a → (0 < a)%R → BOX_BETA physics = Fin b →
  E_FIELD detector = Fin e → LAR_DENSITY detector = Fin rho →
  (e * rho)%R ≠ 0%R →
  recombination mode track (Fin 0) tracks = Ret (of_int 0) tracks ∨
  recombination mode track (Fin 0) tracks = Ret PInf tracks.
Proof.
  intros Hmode Ha Ha0 Hb He Hrho Her.
  rewrite (recombination_BOX physics detector TPC_BORDERS exp _ _ _ _ Hmode).
  open_csi. rewrite Ha, Hb, He, Hrho. cbn [fmul].
  rewrite fdiv_fin by exact Her.
  assert (Hc : (b * 0 / (e * rho))%R = 0%R).
  { unfold Rdiv. rewrite Rmult_0_r, Rmult_0_l. reflexivity. }
  rewrite Hc. cbn [fadd flog]. rewrite Rplus_0_r.
  assert (H00 : Rcmp 0 0 = Eq) by (apply Rcmp_Eq; reflexivity).
  rewrite (Rcmp_Gt a 0) by exact Ha0. cbn [fdiv]. rewrite H00.
  destruct (total_order_T a 1) as [[Hlt | ->] | Hgt].
  - left. rewrite (Rcmp_Lt (ln a) 0) by (apply ln_neg; assumption).
    reflexivity.
  - left. rewrite (Rcmp_Eq (ln 1) 0) by apply ln_1. reflexivity.
  - right. rewrite (Rcmp_Gt (ln a) 0) by (apply ln_pos; exact Hgt).
    reflexivity.
Qed.

(** ** The Data mode *)

(** X18: on the module as it is, with [TPC_BORDERS] unbound, every Data
    thread that addresses a segment raises [NameError] at line 40, before
    any load or store: the array is left as it was; and so does every
    launch on the array. *)
Theorem data_mode_name_error mode i tracks :
  TPC_BORDERS = None →
  mode ≠ BOX physics → mode ≠ BIRKS physics → mode = DATA physics →
  (i < length tracks)%nat →
  quench mode i tracks = Raise NameError tracks ∧
  ∀ threads, launch mode (S threads) tracks = Raise NameError tracks.
Proof.
  intros HT Hbox Hbirks Hdata Hlt.
  assert (Hq : ∀ k, (k < length tracks)%nat →
               quench mode k tracks = Raise NameError tracks).
  { intros k Hk. destruct (lookup_lt_is_Some_2 _ _ Hk) as [seg Hseg].
    rewrite (quench_unfold physics detector light TPC_BORDERS exp _ _ _ _ Hseg).
    rewrite (recombination_unbound physics detector TPC_BORDERS exp
               _ _ _ _ HT Hbox Hbirks Hdata).
    reflexivity. }
  split; [exact (Hq i Hlt) |].
  intros threads. open_launch_def.
  apply (launch_from_raise physics detector light TPC_BORDERS exp).
  apply Hq. lia.
Qed.

(** Under Box every thread completes. *)
Lemma quench_BOX_returns mode i tracks :
  mode = BOX physics →
  quench mode i tracks = Ret tt (final (quench mode i tracks)).
Proof.
  intros Hbox. destruct (tracks !! i) as [seg |] eqn:Hseg.
  - eapply Ret_final.
    exact (quench_returns physics detector light TPC_BORDERS exp mode i tracks
             seg _ _ _ Hseg (recombination_BOX physics detector TPC_BORDERS exp _ _ _ _ Hbox)
             (fmax_zero_not_nan _) Hseg).
  - rewrite quench_out_of_range by (apply lookup_ge_None; exact Hseg).
    reflexivity.
Qed.

End Threads.

(** ** The further properties on the sample *)

Lemma sample_birks_recomb tracks :
  ∃ r, recombination Sample.physics Sample.detector None None 2 0
         (Segment.dEdx Sample.inner) tracks = Ret (Fin r) tracks.
Proof.
  eexists. rewrite recombination_BIRKS by (cbn; lia).
  sample_eval. reflexivity.
Qed.

Lemma quench_depends_on_own_segment_witness :
  ∃ seg',
    (quench Sample.physics Sample.detector Sample.light None None 2 0
       [Sample.inner] = Ret tt (<[0%nat := seg']> [Sample.inner]) ∧
     quench Sample.physics Sample.detector Sample.light None None 2 1
       [Sample.outer; Sample.inner]
     = Ret tt (<[1%nat := seg']> [Sample.outer; Sample.inner])) ∨
    (∃ e,
       quench Sample.physics Sample.detector Sample.light None None 2 0
         [Sample.inner] = Raise e (<[0%nat := seg']> [Sample.inner]) ∧
       quench Sample.physics Sample.detector Sample.light None None 2 1
         [Sample.outer; Sample.inner]
       = Raise e (<[1%nat := seg']> [Sample.outer; Sample.inner])).
Proof.
  apply (quench_depends_on_own_segment Sample.physics Sample.detector
           Sample.light None None 2 0%nat 1%nat [Sample.inner]
           [Sample.outer; Sample.inner] Sample.inner).
  - reflexivity.
  - reflexivity.
Defined.

Lemma quench_threads_commute_witness :
  let run k t := quench Sample.physics Sample.detector Sample.light
                   None None 1 k t in
  let tracks := [Sample.inner; Sample.outer] in
  ∃ t2, run 1%nat tracks = Ret tt t2 ∧
        run 0%nat t2 = Ret tt (final (run 1%nat (final (run 0%nat tracks)))).
Proof.
  intros run tracks.
  apply (quench_threads_commute Sample.physics Sample.detector Sample.light
           None None 1 0%nat 1%nat tracks (final (run 0%nat tracks))).
  - lia.
  - apply quench_BOX_returns. reflexivity.
  - apply quench_BOX_returns. reflexivity.
Defined.

Lemma quench_idempotent_witness :
  let run t := quench Sample.physics Sample.detector Sample.light
                 None None 1 0 t in
  run (final (run [Sample.inner])) = Ret tt (final (run [Sample.inner])).
Proof.
  intros run.
  apply (quench_idempotent Sample.physics Sample.detector Sample.light
           None None 1 0%nat [Sample.inner]).
  apply quench_BOX_returns. reflexivity.
Defined.



Lemma data_mode_name_error_witness :
  quench Sample.physics Sample.detector Sample.light None None 3 0
    [Sample.inner] = Raise NameError [Sample.inner] ∧
  ∀ threads,
    launch Sample.physics Sample.detector Sample.light None None 3
      (S threads) [Sample.inner] = Raise NameError [Sample.inner].
Proof.
  apply (data_mode_name_error Sample.physics Sample.detector Sample.light
           None None 3 0%nat [Sample.inner]).
  - reflexivity.
  - cbn. lia.
  - cbn. lia.
  - reflexivity.
  - cbn. lia.
Defined.

Lemma in_padded_box_nan_witness :
  in_padded_box (Sample.box (-10) 10 (-10) 10 0 30) (Fin 5) (Fin 0) NaN
  = false.
Proof.
  apply (in_padded_box_nan (Sample.box (-10) 10 (-10) 10 0 30)
           (Fin 5) (Fin 0) NaN).
  right. right. reflexivity.
Defined.

Lemma launch_pointwise_witness :
  let tracks := [Sample.inner; Sample.outer] in
  let t' := final (launch Sample.physics Sample.detector Sample.light
                     None None 1 2 tracks) in
  (∃ t, quench Sample.physics Sample.detector Sample.light
          None None 1 1 tracks = Ret tt t ∧ t' !! 1%nat = t !! 1%nat) ∧
  t' !! 5%nat = tracks !! 5%nat.
Proof.
  intros tracks t'.
  destruct (launch_pointwise Sample.physics Sample.detector Sample.light
              None None 1 2 tracks) as (Hiff & Hpoint).
  assert (Hall : ∀ k, (k < 2)%nat →
            ∃ t, quench Sample.physics Sample.detector Sample.light
                   None None 1 k tracks = Ret tt t).
  { intros k _. eexists. apply quench_BOX_returns. reflexivity. }
  destruct (proj2 Hiff Hall) as (u & Hu).
  pose proof (Hpoint t' (Ret_final _ u Hu)) as Hk.
  split.
  - apply (proj1 (Hk 1%nat)). lia.
  - apply (proj2 (Hk 5%nat)). lia.
Defined.

Lemma in_padded_box_finite_witness :
  in_padded_box (Sample.box 0 20 (-10) 10 30 0) (Fin 5) (Fin 0) (Fin 10)
  = true.
Proof.
  apply (in_padded_box_finite 0 20 (-10) 10 30 0 5 0 10).
  unfold Rmin, Rmax. destruct (Rle_dec 30 0); lra.
Defined.

Lemma in_padded_box_z_order_witness :
  in_padded_box
    {| axis0 := (Fin 0, Fin 20); axis1 := (Fin (-10), Fin 10);
       axis2 := (Fin 30, Fin 0) |} (Fin 5) (Fin 0) (Fin 10)
  = in_padded_box
      {| axis0 := (Fin 0, Fin 20); axis1 := (Fin (-10), Fin 10);
         axis2 := (Fin 0, Fin 30) |} (Fin 5) (Fin 0) (Fin 10).
Proof.
  apply (in_padded_box_z_order (Fin 0, Fin 20) (Fin (-10), Fin 10)
           (Fin 0) (Fin 30) (Fin 5) (Fin 0) (Fin 10)).
  - reflexivity.
  - reflexivity.
Defined.

Lemma box_recomb_unit_interval_witness :
  ∃ r, recombination Sample.physics Sample.detector None None 1 0
         (Fin 2) [Sample.inner] = Ret (Fin r) [Sample.inner] ∧
       (0 <= r <= 1)%R.
Proof.
  apply (box_recomb_unit_interval Sample.physics Sample.detector
           None None 1 0%nat (Fin 2) [Sample.inner] (93 / 100)
           (207 / 1000 * 2 / (5 / 10 * (14 / 10)))).
  - reflexivity.
  - reflexivity.
  - lra.
  - unfold csi_of. sample_eval. reflexivity.
  - lra.
Defined.

Lemma birks_decreasing_witness :
  ∃ r1 r2,
    recombination Sample.physics Sample.detector None None 2 0 (Fin 0)
      [Sample.inner] = Ret (Fin r1) [Sample.inner] ∧
    recombination Sample.physics Sample.detector None None 2 0 (Fin 2)
      [Sample.inner] = Ret (Fin r2) [Sample.inner] ∧
    (r2 <= r1)%R ∧
    (0%R = 0%R → Fin r1 = BIRKS_Ab Sample.physics).
Proof.
  apply (birks_decreasing Sample.physics Sample.detector None None
           2 0%nat [Sample.inner] 0 2).
  - cbn. lia.
  - reflexivity.
  - apply positive_Fin. lra.
  - apply positive_Fin. lra.
  - apply positive_Fin. lra.
  - apply positive_Fin. lra.
  - lra.
  - lra.
Defined.

Lemma nan_dE_undetected_witness :
  ∃ t' seg',
    quench Sample.physics Sample.detector Sample.light None None 1 0
      [Variant.unmeasured] = Ret tt t' ∧
    t' !! 0%nat = Some seg' ∧
    Segment.n_electrons seg' = NaN ∧ Segment.n_photons seg' = NaN.
Proof.
  eapply (nan_dE_undetected Sample.physics Sample.detector Sample.light
            None None 1 0%nat [Variant.unmeasured] Variant.unmeasured).
  - reflexivity.
  - apply recombination_BOX. reflexivity.
  - apply fmax_zero_not_nan.
  - reflexivity.
Defined.

Lemma box_zero_dEdx_witness :
  recombination Sample.physics Sample.detector None None 1 0 (Fin 0)
    [Sample.still] = Ret (of_int 0) [Sample.still] ∨
  recombination Sample.physics Sample.detector None None 1 0 (Fin 0)
    [Sample.still] = Ret PInf [Sample.still].
Proof.
  apply (box_zero_dEdx Sample.physics Sample.detector None None 1 0%nat
           [Sample.still] (93 / 100) (207 / 1000) (5 / 10) (14 / 10)).
  - reflexivity.
  - reflexivity.
  - lra.
  - reflexivity.
  - reflexivity.
  - reflexivity.
  - lra.
Defined.

